(** * The movie chatbot's function-calling loop (app.py)

    A shallow embedding of [src/app.py]: the call extractor
    [parse_function_call_args], the review augmenter
    [add_review_context_if_needed] and the turn handler [on_message] with its
    [while True] dispatch loop.

    Python values are an inductive type, exceptions are values, and the
    handlers run in a state monad whose state survives a raised exception,
    as the in-place mutation of [message_history] does in Python.  The
    language model, the four functions of [movie_functions] and the two
    library parsers ([ast.parse], [json.loads]) are the fields of a record
    that every definition takes as a parameter.

    Left out: the tracing decorators, the token by token display of a
    streamed reply (the reply is the text it adds up to), and the two prints
    of a text (lines 112 and 217), whose line the standard output is taken
    to accept.  The two prints of extracted values (lines 158 and 193) are
    steps of the loop: formatting or encoding a value can fail. *)

From Stdlib Require Import String Ascii List ZArith Bool Arith Lia DecimalString SpecFloat.
Import ListNotations.
Local Open Scope string_scope.
Set Warnings "-register-all".

(** ** Text *)

(** The line feed written [\n] in the Python literals. *)
Definition LF : string := String (ascii_of_nat 10) EmptyString.

(** The double quote, for the texts that hold one. *)
Definition DQ : string := String (ascii_of_nat 34) EmptyString.

(** [quoted s] is [s] between double quotes. *)
Definition quoted (s : string) : string := DQ ++ s ++ DQ.

(** Python's [needle in hay] on [str]. *)
Fixpoint contains (needle hay : string) : bool :=
  if String.prefix needle hay then true
  else match hay with
       | EmptyString => false
       | String _ rest => contains needle rest
       end.

(** ** Python values and exceptions *)

(** The values [ast.literal_eval] and [json.loads] build.  A float is its
    IEEE 754 binary64 value, a complex number its two parts.  A set or dict
    is kept as the sequence of insertions that built it. *)
Inductive pyval : Type :=
| VNone
| VEllipsis
| VBool (b : bool)
| VInt (z : Z)
| VFloat (f : spec_float)
| VComplex (re im : spec_float)
| VStr (s : string)
| VBytes (s : string)
| VTuple (elts : list pyval)
| VList (elts : list pyval)
| VSet (elts : list pyval)
| VDict (items : list (pyval * pyval)).

Inductive exc_class : Type :=
| SyntaxError
| ValueError
| TypeError
| IndexError
| AttributeError
| JSONDecodeError
| OverflowError
| OtherException (name : string)
| BaseOnly (name : string).

(** A raised exception: its class and [str(e)].  For the exceptions that the
    interpreter and the library raise, the text here is a short form of
    theirs: the program never reads it. *)
Record exception : Type := Exc { exc_cls : exc_class; exc_str : string }.

(** [isinstance(e, Exception)], what [except Exception] catches: every class
    but those that derive from [BaseException] alone ([KeyboardInterrupt],
    [SystemExit], [GeneratorExit], [asyncio.CancelledError]), which are the
    [BaseOnly] ones; [OtherException] is any other subclass of [Exception]. *)
Definition is_Exception (e : exception) : bool :=
  match exc_cls e with
  | BaseOnly _ => false
  | _ => true
  end.

Inductive result (A : Type) : Type :=
| Ok (a : A)
| Raise (e : exception).
Arguments Ok {A} a.
Arguments Raise {A} e.

(** [hash(v)] succeeds. *)
Fixpoint hashable (v : pyval) : bool :=
  match v with
  | VTuple elts => forallb hashable elts
  | VList _ | VSet _ | VDict _ => false
  | _ => true
  end.

(** A float that is zero, of either sign. *)
Definition is_zero (f : spec_float) : bool :=
  match f with
  | S754_zero _ => true
  | _ => false
  end.

(** [bool(v)]. *)
Definition truthy (v : pyval) : bool :=
  match v with
  | VNone => false
  | VEllipsis => true
  | VBool b => b
  | VInt z => negb (Z.eqb z 0)
  | VFloat f => negb (is_zero f)
  | VComplex re im => negb (is_zero re && is_zero im)
  | VStr s | VBytes s => negb (String.eqb s "")
  | VTuple l | VList l | VSet l => negb (Nat.eqb (length l) 0)
  | VDict l => negb (Nat.eqb (length l) 0)
  end.

(** [d.get(key, default)] for a [str] key: the last insertion under that key
    wins; anything but a dict has no [get]. *)
Fixpoint last_item (key : string) (items : list (pyval * pyval)) (found : option pyval)
  : option pyval :=
  match items with
  | [] => found
  | (VStr k, v) :: rest =>
      last_item key rest (if String.eqb k key then Some v else found)
  | _ :: rest => last_item key rest found
  end.

Definition dict_get (d : pyval) (key : string) (default : pyval) : result pyval :=
  match d with
  | VDict items =>
      Ok (match last_item key items None with Some v => v | None => default end)
  | _ => Raise (Exc AttributeError "object has no attribute 'get'")
  end.

(** ** The [ast] module: expression trees and [literal_eval] *)

Module ast.

Inductive constant : Type :=
| CNone
| CEllipsis
| CBool (b : bool)
| CInt (z : Z)
| CFloat (f : spec_float)
| CComplex (re im : spec_float)
| CStr (s : string)
| CBytes (s : string).

Inductive unaryop : Type := UAdd | USub | Not | Invert.

Inductive operator : Type := Add | Sub | OtherOperator (name : string).

Inductive comp_kind : Type := ListComp | SetComp | DictComp | GeneratorExp.

(** The expression nodes.  [Comp] stands for the four comprehension
    classes, [OtherExpr cls children] for every class not listed (Lambda,
    IfExp, Compare, Subscript, JoinedStr, ...): [literal_eval] rejects
    them all without looking inside. *)
Inductive expr : Type :=
| Constant (value : constant)
| Name (id : string)
| Attribute (value : expr) (attr : string)
| Call (func : expr) (args : list expr) (keywords : list (option string * expr))
| Starred (value : expr)
| UnaryOp (op : unaryop) (operand : expr)
| BinOp (left : expr) (op : operator) (right : expr)
| Tuple (elts : list expr)
| List (elts : list expr)
| Set_ (elts : list expr)
| Dict (keys : list (option expr)) (values : list expr)
| Comp (kind : comp_kind) (elts : list expr) (generators : list (expr * expr))
| OtherExpr (cls : string) (children : list expr).

Definition value_of (c : constant) : pyval :=
  match c with
  | CNone => VNone
  | CEllipsis => VEllipsis
  | CBool b => VBool b
  | CInt z => VInt z
  | CFloat f => VFloat f
  | CComplex re im => VComplex re im
  | CStr s => VStr s
  | CBytes s => VBytes s
  end.

Definition malformed {A : Type} : result A :=
  Raise (Exc ValueError "malformed node or string").

Definition unhashable {A : Type} : result A :=
  Raise (Exc TypeError "unhashable type").

(** [float(z)] for an [int]: the nearest binary64 value, an [OverflowError]
    when there is none. *)
Definition float_of_int (z : Z) : result spec_float :=
  match binary_normalize 53 1024 z 0 false with
  | S754_infinity _ => Raise (Exc OverflowError "int too large to convert to float")
  | f => Ok f
  end.

(** [_convert_num]: an [int], [float] or [complex] constant ([bool] is not
    one: the test is on [type(node.value)]). *)
Definition convert_num (node : expr) : result pyval :=
  match node with
  | Constant (CInt z) => Ok (VInt z)
  | Constant (CFloat f) => Ok (VFloat f)
  | Constant (CComplex re im) => Ok (VComplex re im)
  | _ => malformed
  end.

(** [- operand] on a number. *)
Definition negative (v : pyval) : pyval :=
  match v with
  | VInt z => VInt (- z)
  | VFloat f => VFloat (SFopp f)
  | VComplex re im => VComplex (SFopp re) (SFopp im)
  | _ => v
  end.

(** [_convert_signed_num]. *)
Definition convert_signed_num (node : expr) : result pyval :=
  match node with
  | UnaryOp UAdd operand =>
      match convert_num operand with Ok v => Ok v | Raise e => Raise e end
  | UnaryOp USub operand =>
      match convert_num operand with Ok v => Ok (negative v) | Raise e => Raise e end
  | _ => convert_num node
  end.

(** [left + right] and [left - right] for a real [left] and a complex
    [right]: [left] becomes the complex number of imaginary part [0.0] and
    the parts are added or subtracted (CPython up to 3.13). *)
Definition real_with_complex (subtract : bool) (left : spec_float) (re im : spec_float)
  : pyval :=
  if subtract
  then VComplex (SFsub 53 1024 left re) (SFsub 53 1024 (S754_zero false) im)
  else VComplex (SFadd 53 1024 left re) (SFadd 53 1024 (S754_zero false) im).

(** The [BinOp] case of [_convert] for [Add] ([subtract] false) and [Sub]:
    a signed [int] or [float] on the left and a [complex] constant on the
    right give a complex number; with any other operands the node is
    malformed. *)
Definition convert_sum (subtract : bool) (left right : expr) : result pyval :=
  match convert_signed_num left with
  | Raise e => Raise e
  | Ok l =>
      match convert_num right with
      | Raise e => Raise e
      | Ok (VComplex re im) =>
          match l with
          | VInt z =>
              match float_of_int z with
              | Ok f => Ok (real_with_complex subtract f re im)
              | Raise e => Raise e
              end
          | VFloat f => Ok (real_with_complex subtract f re im)
          | _ => malformed
          end
      | Ok _ => malformed
      end
  end.

Definition is_empty {A : Type} (l : list A) : bool :=
  match l with [] => true | _ => false end.

(** [list(map(_convert, elts))]: the first failure, if any, is the one raised. *)
Fixpoint collect (rs : list (result pyval)) : result (list pyval) :=
  match rs with
  | [] => Ok []
  | Raise e :: _ => Raise e
  | Ok v :: rest =>
      match collect rest with
      | Ok vs => Ok (v :: vs)
      | Raise e => Raise e
      end
  end.

(** [set(map(_convert, elts))]: each element is converted, then hashed. *)
Fixpoint collect_set (rs : list (result pyval)) : result (list pyval) :=
  match rs with
  | [] => Ok []
  | Raise e :: _ => Raise e
  | Ok v :: rest =>
      if hashable v then
        match collect_set rest with
        | Ok vs => Ok (v :: vs)
        | Raise e => Raise e
        end
      else unhashable
  end.

(** [dict(zip(map(_convert, keys), map(_convert, values)))]: pair by pair,
    the key is converted, then the value, then the key is hashed. *)
Fixpoint collect_items (ks vs : list (result pyval)) : result (list (pyval * pyval)) :=
  match ks, vs with
  | Raise e :: _, _ :: _ => Raise e
  | Ok _ :: _, Raise e :: _ => Raise e
  | Ok k :: ks', Ok v :: vs' =>
      if hashable k then
        match collect_items ks' vs' with
        | Ok items => Ok ((k, v) :: items)
        | Raise e => Raise e
        end
      else unhashable
  | _, _ => Ok []
  end.

(** [_convert], the body of [literal_eval] on a node.  The call [set()] is
    read as the empty set (Python 3.9 and later). *)
Fixpoint convert (node : expr) : result pyval :=
  match node with
  | Constant c => Ok (value_of c)
  | Tuple elts =>
      match collect (map convert elts) with
      | Ok vs => Ok (VTuple vs)
      | Raise e => Raise e
      end
  | List elts =>
      match collect (map convert elts) with
      | Ok vs => Ok (VList vs)
      | Raise e => Raise e
      end
  | Set_ elts =>
      match collect_set (map convert elts) with
      | Ok vs => Ok (VSet vs)
      | Raise e => Raise e
      end
  | Call (Name id) args keywords =>
      if String.eqb id "set" && is_empty args && is_empty keywords
      then Ok (VSet [])
      else malformed
  | Dict keys values =>
      if Nat.eqb (length keys) (length values) then
        match collect_items
                (map (fun k => match k with
                               | Some k => convert k
                               | None => malformed   (* the key of [**d] *)
                               end) keys)
                (map convert values) with
        | Ok items => Ok (VDict items)
        | Raise e => Raise e
        end
      else malformed
  | BinOp lhs Add rhs => convert_sum false lhs rhs
  | BinOp lhs Sub rhs => convert_sum true lhs rhs
  | _ => convert_signed_num node
  end.

(** [ast.literal_eval(node)] on a node taken out of a parsed tree. *)
Definition literal_eval (node : expr) : result pyval := convert node.

End ast.

(** ** Messages and the conversation *)

Inductive role : Type := system | user | assistant.

(** The dict [{"role": r, "content": c}]. *)
Record Message : Type := msg { msg_role : role; msg_content : string }.

(** What a turn does that is seen from outside the process: a request to the
    model with the messages sent, a chat message shown to the user, a call of
    one of the functions of [movie_functions] with its arguments. *)
Inductive event : Type :=
| Completion (messages : list Message) (stream : bool)
| Sent (content : string)
| Invoked (function : string) (args : list pyval).

(** The parts of an f-string: a piece of text, and a value to format. *)
Inductive fpart : Type :=
| Lit (s : string)
| Fmt (v : pyval).

(** ** What the program calls and does not define

    [W] is the state of the world outside the process.  The model and the
    movie functions read and change it; the two parsers and [str] are pure.
    The module [movie_functions] is not among the sources: its four
    functions are parameters, and each of them returns text or raises, as
    any call may.  The request to the model is taken to answer.
    [print_fstring] is [print(f"...")] on values taken out of the model's
    text: it returns, or raises when a value cannot be formatted (an [int]
    of more digits than [str] accepts) or encoded (a lone surrogate). *)
Record Externals (W : Type) : Type := {
  (* ast.parse(text, mode="eval").body *)
  ast_parse : string -> result ast.expr;
  (* json.loads(text) *)
  json_loads : string -> result pyval;
  (* str(value), as the f-string formats a decoded value *)
  py_str : pyval -> string;
  (* print(f"...{value}..."), lines 158 and 193 *)
  print_fstring : list fpart -> result unit;
  (* client.chat.completions.create(messages=..., stream=..., **gen_kwargs):
     the content of the reply *)
  completions_create : list Message -> bool -> W -> string * W;
  get_now_playing_movies : W -> result string * W;
  get_showtimes : pyval -> pyval -> W -> result string * W;
  buy_ticket : pyval -> pyval -> pyval -> W -> result string * W;
  get_reviews : pyval -> W -> result string * W
}.
Arguments ast_parse {W} _ _.
Arguments json_loads {W} _ _.
Arguments py_str {W} _ _.
Arguments print_fstring {W} _ _.
Arguments completions_create {W} _ _ _ _.
Arguments get_now_playing_movies {W} _ _.
Arguments get_showtimes {W} _ _ _ _.
Arguments buy_ticket {W} _ _ _ _ _.
Arguments get_reviews {W} _ _ _.

(** ** The prompts *)

Definition SYSTEM_PROMPT : string :=
  LF ++
  "You are a helpful movie chatbot who helps answer questions about movies playing in theaters. " ++
  "If a user asks for recent information, output a function call. " ++
  "If you need to call a function, the function call should be the only response â€” DO NOT INCLUDE OTHER TEXT. " ++
  "Call functions using Python syntax in plain text, no code blocks. " ++
  LF ++
  "If you do not have sufficient inputs from the user to call a function, ask the user for more information. " ++
  "If a user is looking to buy a ticket but has not confirmed whether to buy a ticket yet, ask the user to confirm their ticket purchase. " ++
  LF ++
  "You have access to the following functions:" ++ LF ++
  "get_now_playing_movies() - Returns a list of movies currently playing in theaters." ++ LF ++
  "get_showtimes(movie, location) - Returns showtimes for a movie in a given location." ++ LF ++
  "confirm_ticket_purchase(theater, movie, showtime) - Confirms a ticket purchase for a movie in a given theater and showtime." ++ LF ++
  "buy_ticket(theater. movie, showtime) - Buys a ticket for a movie in a given theater and showtime." ++ LF ++
  "get_reviews(movie_id) - Returns reviews for a movie." ++ LF.

(** The local [system_prompt] of [add_review_context_if_needed]. *)
Definition review_prompt : string :=
  "    Based on the conversation, determine if the topic is about a specific movie. " ++
  "    Determine if the user is asking a question that would be aided by knowing what critics are saying about the movie. " ++
  "    Determine if the reviews for that movie have already been provided in the conversation. If so, do not fetch reviews." ++ LF ++
  "    " ++ LF ++
  "    Your only role is to evaluate the conversation, and decide whether to fetch reviews." ++ LF ++
  LF ++
  "    Output the current movie, id, a boolean to fetch reviews in JSON format, and your" ++ LF ++
  "    rationale. Do not output as a code block." ++ LF ++
  LF ++
  "    {" ++ LF ++
  "        " ++ quoted "movie" ++ ": " ++ quoted "title" ++ "," ++ LF ++
  "        " ++ quoted "id" ++ ": 123," ++ LF ++
  "        " ++ quoted "fetch_reviews" ++ ": true" ++ LF ++
  "        " ++ quoted "rationale" ++ ": " ++ quoted "reasoning" ++ LF ++
  "    }" ++ LF ++
  "    ".

(** ** The state of a running handler and its monad *)

(** How a handler ends: it returns, an exception leaves it, or the model of
    the [while True] loop has run out of fuel. *)
Inductive outcome (A : Type) : Type :=
| Returns (a : A)
| Raises (e : exception)
| OutOfFuel.
Arguments Returns {A} a.
Arguments Raises {A} e.
Arguments OutOfFuel {A}.

(** [message_history] is the list object the handler works on; [session_set]
    says that [cl.user_session] holds that same object, so that what is
    appended to it is kept whatever way the handler ends.  [world] is the
    outside world and [trace] the events so far, oldest first. *)
Record state (W : Type) : Type := mk_state {
  message_history : list Message;
  session_set : bool;
  world : W;
  trace : list event
}.
Arguments mk_state {W} _ _ _ _.
Arguments message_history {W} _.
Arguments session_set {W} _.
Arguments world {W} _.
Arguments trace {W} _.

(** A step of a handler: it ends one way or another and leaves a state.  The
    state is kept when an exception is raised, as the list mutated in place
    is in Python. *)
Definition M (W A : Type) : Type := state W -> outcome A * state W.

Definition ret {W A : Type} (a : A) : M W A := fun st => (Returns a, st).

Definition bind {W A B : Type} (c : M W A) (k : A -> M W B) : M W B :=
  fun st =>
    match c st with
    | (Returns a, st') => k a st'
    | (Raises e, st') => (Raises e, st')
    | (OutOfFuel, st') => (OutOfFuel, st')
    end.

(** [try: text = ... except Exception as e: text = f"{prefix}{str(e)}"]: the
    text of the body, the message for an exception that [except Exception]
    catches; any other exception goes on. *)
Definition except_Exception (prefix : string) (body : result string) : result string :=
  match body with
  | Ok text => Ok text
  | Raise e => if is_Exception e then Ok (prefix ++ exc_str e) else Raise e
  end.

(** An exception raised by a pure step leaves the handler. *)
Definition lift {W A : Type} (r : result A) : M W A :=
  fun st => match r with
            | Ok a => (Returns a, st)
            | Raise e => (Raises e, st)
            end.

Declare Scope handler_scope.
Delimit Scope handler_scope with handler.
Notation "x <- c ;; k" := (bind c (fun x => k))
  (at level 61, c at next level, right associativity) : handler_scope.
Notation "c ;; k" := (bind c (fun _ => k))
  (at level 61, right associativity) : handler_scope.

(** ** The program *)

Section Program.

Context {W : Type} (ext : Externals W).
Local Open Scope handler_scope.

(** *** Steps on the state *)

(** [message_history.append(m)]. *)
Definition append (m : Message) : M W unit :=
  fun st => (Returns tt,
             mk_state (message_history st ++ [m])%list (session_set st) (world st) (trace st)).

Definition emit (e : event) : M W unit :=
  fun st => (Returns tt,
             mk_state (message_history st) (session_set st) (world st) (trace st ++ [e])%list).

Definition get_history : M W (list Message) :=
  fun st => (Returns (message_history st), st).

(** [message_history = cl.user_session.get("message_history", [])]: the
    stored list, or a new empty one that the session does not hold. *)
Definition user_session_get : M W unit :=
  fun st => if session_set st then (Returns tt, st)
            else (Returns tt, mk_state [] false (world st) (trace st)).

(** [cl.user_session.set("message_history", message_history)]. *)
Definition user_session_set : M W unit :=
  fun st => (Returns tt, mk_state (message_history st) true (world st) (trace st)).

(** A call into the outside world, recorded in the trace. *)
Definition external {A : Type} (e : event) (f : W -> A * W) : M W A :=
  fun st => let (a, w) := f (world st) in
            (Returns a,
             mk_state (message_history st) (session_set st) w (trace st ++ [e])%list).

(** *** [parse_function_call_args] *)

Definition parse_function_call_args (function_call_str : string)
  : result (list pyval) :=
  match ast_parse ext function_call_str with
  | Raise e => Raise e
  | Ok call_node =>
      match call_node with
      | ast.Call _ args _ => ast.collect (map ast.literal_eval args)
      | _ => Raise (Exc ValueError "Not a valid function call")
      end
  end.

(** The tuple targets [a, b = ...] and [a, b, c = ...]. *)
Definition unpack2 (l : list pyval) : result (pyval * pyval) :=
  match l with
  | [a; b] => Ok (a, b)
  | [] | [_] => Raise (Exc ValueError "not enough values to unpack (expected 2)")
  | _ => Raise (Exc ValueError "too many values to unpack (expected 2)")
  end.

Definition unpack3 (l : list pyval) : result (pyval * pyval * pyval) :=
  match l with
  | [a; b; c] => Ok (a, b, c)
  | [] | [_] | [_; _] =>
      Raise (Exc ValueError "not enough values to unpack (expected 3)")
  | _ => Raise (Exc ValueError "too many values to unpack (expected 3)")
  end.

(** *** [on_chat_start] *)

Definition on_chat_start (w : W) (tr : list event) : state W :=
  mk_state [msg system SYSTEM_PROMPT] true w tr.

(** *** [generate_response]

    A chat message is sent empty, filled with the streamed tokens and
    updated; the value used afterwards is its content. *)
Definition generate_response : M W string :=
  history <- get_history ;;
  content <- external (Completion history true) (completions_create ext history true) ;;
  emit (Sent content) ;;
  ret content.

(** *** [add_review_context_if_needed] *)

Definition add_review_context_if_needed : M W unit :=
  msg_history <- get_history ;;
  (* new_msg_history = msg_history.copy(); new_msg_history[0] = ... *)
  new_msg_history <-
    lift (match msg_history with
          | [] => Raise (Exc IndexError "list assignment index out of range")
          | _ :: rest => Ok (msg system review_prompt :: rest)
          end) ;;
  let new_msg_history := (new_msg_history ++ [msg system review_prompt])%list in
  content <- external (Completion new_msg_history false)
                      (completions_create ext new_msg_history false) ;;
  response_json <- lift (json_loads ext content) ;;
  fetch_reviews <- lift (dict_get response_json "fetch_reviews" (VBool false)) ;;
  if truthy fetch_reviews then
    movie <- lift (dict_get response_json "movie" VNone) ;;
    movie_id <- lift (dict_get response_json "id" VNone) ;;
    fetched <- external (Invoked "get_reviews" [movie_id]) (get_reviews ext movie_id) ;;
    reviews <-
      lift (except_Exception
              "An error occurred while fetching reviews: "
              match fetched with
              | Ok text => Ok ("Reviews for " ++ py_str ext movie ++ ":" ++ LF ++ LF ++ text)
              | Raise e => Raise e
              end) ;;
    append (msg system ("MOVIE REVIEW CONTEXT:" ++ LF ++ LF ++ reviews))
  else ret tt.

(** *** [on_message] *)

(** What every dispatching branch ends with: another response is streamed
    with the updated history and appended; its content is the next
    [response_message.content]. *)
Definition regenerate : M W (option string) :=
  content <- generate_response ;;
  append (msg assistant content) ;;
  user_session_set ;;
  ret (Some content).

(** The body of the [while True] loop on [response_message.content]:
    [Some content'] goes round again, [None] is the [break]. *)
Definition dispatch_cycle (content : string) : M W (option string) :=
  if contains "get_now_playing_movies()" content then
    called <- external (Invoked "get_now_playing_movies" [])
                       (get_now_playing_movies ext) ;;
    now_playing_movies <- lift called ;;
    append (msg system ("Current movies:" ++ LF ++ LF ++ " " ++ now_playing_movies)) ;;
    regenerate
  else if contains "get_showtimes(" content then
    args <- lift (parse_function_call_args content) ;;
    pair <- lift (unpack2 args) ;;
    let (movie, location) := pair : pyval * pyval in
    lift (print_fstring ext [Lit "Movie: "; Fmt movie; Lit ", Location: "; Fmt location]) ;;
    called <- external (Invoked "get_showtimes" [movie; location])
                       (get_showtimes ext movie location) ;;
    showtimes <-
      lift (except_Exception "An error occurred while fetching showtimes: " called) ;;
    append (msg system showtimes) ;;
    regenerate
  else if contains "confirm_ticket_purchase(" content then
    append (msg system ("The user has confirmed their purchase for " ++ content)) ;;
    regenerate
  else if contains "buy_ticket(" content then
    args <- lift (parse_function_call_args content) ;;
    triple <- lift (unpack3 args) ;;
    let '(theater, movie, showtime) := triple : pyval * pyval * pyval in
    lift (print_fstring ext [Lit "Theater: "; Fmt theater; Lit ", Movie: "; Fmt movie;
                             Lit ", Showtime: "; Fmt showtime]) ;;
    called <- external (Invoked "buy_ticket" [theater; movie; showtime])
                       (buy_ticket ext theater movie showtime) ;;
    ticket_purchase_confirmation <-
      lift (except_Exception "An error occurred while purchasing the ticket: " called) ;;
    append (msg system ticket_purchase_confirmation) ;;
    regenerate
  else ret None.

(** The [while True] loop, with fuel for the number of times round. *)
Fixpoint dispatch_loop (fuel : nat) (content : string) : M W unit :=
  match fuel with
  | O => fun st => (OutOfFuel, st)
  | S fuel' =>
      next <- dispatch_cycle content ;;
      match next with
      | Some content' => dispatch_loop fuel' content'
      | None => ret tt
      end
  end.

(** The steps of [on_message] before the loop: the user's message is
    appended, the augmenter runs, a first response is generated and
    appended. *)
Definition first_response (message_content : string) : M W string :=
  user_session_get ;;
  append (msg user message_content) ;;
  add_review_context_if_needed ;;
  content <- generate_response ;;
  append (msg assistant content) ;;
  user_session_set ;;
  ret content.

Definition on_message (fuel : nat) (message_content : string) : M W unit :=
  content <- first_response message_content ;;
  dispatch_loop fuel content.

End Program.

(** ** Two small parsers, to run the program on concrete texts

    The theorems below hold for every [ast_parse] and [json_loads].  To
    evaluate the program on a given text one needs the parse of that text:
    [Fragment.parse] and [Fragment.loads] read a fragment of the two
    grammars (names, decimal and hexadecimal integers, quoted strings without
    a backslash,
    the three named constants, calls with positional and keyword arguments,
    attribute access, unary minus and list displays; JSON objects and
    arrays of strings, integers and the three named constants) and answer
    with a syntax error on everything else, also where CPython would not.
    They are used only on texts of the fragment. *)

Module Fragment.

Inductive token : Type :=
| TName (s : string)
| TInt (z : Z)
| THex (z : Z)
| TStr (double : bool) (s : string)
| TPunct (c : ascii)
| TBlank.

Definition between (lo hi : nat) (c : ascii) : bool :=
  let n := nat_of_ascii c in Nat.leb lo n && Nat.leb n hi.

Definition is_digit (c : ascii) : bool := between 48 57 c.

Definition is_name_start (c : ascii) : bool :=
  between 65 90 c || between 97 122 c || Nat.eqb (nat_of_ascii c) 95.

Definition is_name_char (c : ascii) : bool := is_name_start c || is_digit c.

Definition is_punct (c : ascii) : bool :=
  existsb (Ascii.eqb c) ["("; ")"; "["; "]"; "{"; "}"; ","; "."; ":"; "="; "-"]%char.

(** The longest prefix of characters satisfying [p], and the rest. *)
Fixpoint span (p : ascii -> bool) (s : string) : string * string :=
  match s with
  | String c rest =>
      if p c then let (taken, more) := span p rest in (String c taken, more)
      else (EmptyString, s)
  | EmptyString => (EmptyString, EmptyString)
  end.

(** The body of a string opened by [quote]: up to the closing quote, with
    no backslash and no control character in it. *)
Fixpoint string_body (quote : ascii) (s : string) : option (string * string) :=
  match s with
  | EmptyString => None
  | String c rest =>
      if Ascii.eqb c quote then Some (EmptyString, rest)
      else if Ascii.eqb c "\"%char || Nat.ltb (nat_of_ascii c) 32 then None
      else match string_body quote rest with
           | Some (body, more) => Some (String c body, more)
           | None => None
           end
  end.

Fixpoint digits_value (s : string) (acc : Z) : Z :=
  match s with
  | EmptyString => acc
  | String c rest => digits_value rest (10 * acc + Z.of_nat (nat_of_ascii c - 48))%Z
  end.

Definition starts_with (p : ascii -> bool) (s : string) : bool :=
  match s with String c _ => p c | EmptyString => false end.

(** The digits of an integer written [0x...]. *)
Definition is_hex_digit (c : ascii) : bool :=
  is_digit c || between 65 70 c || between 97 102 c.

Definition hex_digit_value (c : ascii) : nat :=
  let n := nat_of_ascii c in
  if is_digit c then n - 48 else if between 65 70 c then n - 55 else n - 87.

Fixpoint hex_value (s : string) (acc : Z) : Z :=
  match s with
  | EmptyString => acc
  | String c rest => hex_value rest (16 * acc + Z.of_nat (hex_digit_value c))%Z
  end.

(** What follows [0] when the integer is hexadecimal: the digits and the
    rest. *)
Definition hex_literal (after_zero : string) : option (string * string) :=
  match after_zero with
  | String x more =>
      if Ascii.eqb x "x"%char || Ascii.eqb x "X"%char
      then Some (span is_hex_digit more)
      else None
  | EmptyString => None
  end.

Fixpoint lex (fuel : nat) (s : string) : option (list token) :=
  match fuel with
  | O => match s with EmptyString => Some [] | _ => None end
  | S fuel' =>
      match s with
      | EmptyString => Some []
      | String c rest =>
          if Ascii.eqb c " "%char then lex fuel' rest
          else if existsb (Nat.eqb (nat_of_ascii c)) [9; 10; 13] then
            option_map (cons TBlank) (lex fuel' rest)
          else if is_name_start c then
            let (name, more) := span is_name_char s in
            option_map (cons (TName name)) (lex fuel' more)
          else if Ascii.eqb c "0"%char && starts_with is_name_start rest then
            match hex_literal rest with
            | Some (digits, more) =>
                if Nat.eqb (String.length digits) 0 || starts_with is_name_start more
                then None
                else option_map (cons (THex (hex_value digits 0))) (lex fuel' more)
            | None => None
            end
          else if is_digit c then
            let (digits, more) := span is_digit s in
            if (Ascii.eqb c "0"%char && Nat.ltb 1 (String.length digits))
               || starts_with (fun d => is_name_start d || Ascii.eqb d "."%char) more
            then None
            else option_map (cons (TInt (digits_value digits 0))) (lex fuel' more)
          else if Nat.eqb (nat_of_ascii c) 34 || Nat.eqb (nat_of_ascii c) 39 then
            match string_body c rest with
            | Some (body, more) =>
                option_map (cons (TStr (Nat.eqb (nat_of_ascii c) 34) body)) (lex fuel' more)
            | None => None
            end
          else if is_punct c then option_map (cons (TPunct c)) (lex fuel' rest)
          else None
      end
  end.

Definition tokens (s : string) : option (list token) := lex (String.length s) s.

(** *** Expressions *)

Definition reserved : list string :=
  ["and"; "as"; "assert"; "async"; "await"; "break"; "class"; "continue";
   "def"; "del"; "elif"; "else"; "except"; "finally"; "for"; "from";
   "global"; "if"; "import"; "in"; "is"; "lambda"; "nonlocal"; "not"; "or";
   "pass"; "raise"; "return"; "try"; "while"; "with"; "yield"].

Definition name_node (s : string) : option ast.expr :=
  if String.eqb s "True" then Some (ast.Constant (ast.CBool true))
  else if String.eqb s "False" then Some (ast.Constant (ast.CBool false))
  else if String.eqb s "None" then Some (ast.Constant ast.CNone)
  else if existsb (String.eqb s) reserved then None
  else Some (ast.Name s).

Definition is_reserved_name (s : string) : bool :=
  match name_node s with Some (ast.Name _) => false | _ => true end.

Definition punct (c : string) (t : token) : bool :=
  match t, c with
  | TPunct p, String q EmptyString => Ascii.eqb p q
  | _, _ => false
  end.

(** [expression] reads a unary expression: minus signs, an atom and its
    trailers.  [trailers] reads the attribute accesses and calls after a
    primary, [arguments] the inside of a call up to its closing
    parenthesis ([keyword_seen]: a positional argument may no longer
    follow), [elements] the inside of a list display. *)
Fixpoint expression (fuel : nat) (ts : list token) : option (ast.expr * list token) :=
  match fuel with
  | O => None
  | S fuel' =>
      match ts with
      | TName s :: rest =>
          match name_node s with
          | Some e => trailers fuel' e rest
          | None => None
          end
      | TInt z :: rest => trailers fuel' (ast.Constant (ast.CInt z)) rest
      | THex z :: rest => trailers fuel' (ast.Constant (ast.CInt z)) rest
      | TStr _ s :: rest => trailers fuel' (ast.Constant (ast.CStr s)) rest
      | TPunct c :: rest =>
          if Ascii.eqb c "-"%char then
            match expression fuel' rest with
            | Some (e, more) => Some (ast.UnaryOp ast.USub e, more)
            | None => None
            end
          else if Ascii.eqb c "["%char then
            match elements fuel' rest with
            | Some (elts, more) => trailers fuel' (ast.List elts) more
            | None => None
            end
          else None
      | _ => None
      end
  end
with trailers (fuel : nat) (e : ast.expr) (ts : list token)
  : option (ast.expr * list token) :=
  match fuel with
  | O => None
  | S fuel' =>
      match ts with
      | TPunct c :: rest =>
          if Ascii.eqb c "."%char then
            match rest with
            | TName attr :: rest' =>
                if is_reserved_name attr then None
                else trailers fuel' (ast.Attribute e attr) rest'
            | _ => None
            end
          else if Ascii.eqb c "("%char then
            match arguments fuel' false rest with
            | Some (args, keywords, more) => trailers fuel' (ast.Call e args keywords) more
            | None => None
            end
          else Some (e, ts)
      | _ => Some (e, ts)
      end
  end
with arguments (fuel : nat) (keyword_seen : bool) (ts : list token)
  : option (list ast.expr * list (option string * ast.expr) * list token) :=
  match fuel with
  | O => None
  | S fuel' =>
      match ts with
      | t :: rest =>
          if punct ")" t then Some ([], [], rest)
          else
            let after (more : list token) :=
              match more with
              | t' :: more' =>
                  if punct ")" t' then Some more
                  else if punct "," t' then Some more'
                  else None
              | [] => None
              end in
            match ts with
            | TName k :: TPunct c :: rest' =>
                if Ascii.eqb c "="%char then
                  if is_reserved_name k then None
                  else
                    match expression fuel' rest' with
                    | Some (e, more) =>
                        match after more with
                        | Some more' =>
                            match arguments fuel' true more' with
                            | Some (args, keywords, final) =>
                                (* a keyword argument may not be repeated *)
                                if existsb (fun kw => match fst kw with
                                                      | Some k' => String.eqb k k'
                                                      | None => false
                                                      end) keywords
                                then None
                                else Some (args, (Some k, e) :: keywords, final)
                            | None => None
                            end
                        | None => None
                        end
                    | None => None
                    end
                else positional fuel' keyword_seen ts
            | _ => positional fuel' keyword_seen ts
            end
      | [] => None
      end
  end
with positional (fuel : nat) (keyword_seen : bool) (ts : list token)
  : option (list ast.expr * list (option string * ast.expr) * list token) :=
  match fuel with
  | O => None
  | S fuel' =>
      if keyword_seen then None
      else
        match expression fuel' ts with
        | Some (e, t' :: more') =>
            if punct ")" t' then
              match arguments fuel' false (t' :: more') with
              | Some (args, keywords, final) => Some (e :: args, keywords, final)
              | None => None
              end
            else if punct "," t' then
              match arguments fuel' false more' with
              | Some (args, keywords, final) => Some (e :: args, keywords, final)
              | None => None
              end
            else None
        | _ => None
        end
  end
with elements (fuel : nat) (ts : list token) : option (list ast.expr * list token) :=
  match fuel with
  | O => None
  | S fuel' =>
      match ts with
      | t :: rest =>
          if punct "]" t then Some ([], rest)
          else
            match expression fuel' ts with
            | Some (e, t' :: more') =>
                if punct "]" t' then Some ([e], more')
                else if punct "," t' then
                  match elements fuel' more' with
                  | Some (elts, final) => Some (e :: elts, final)
                  | None => None
                  end
                else None
            | _ => None
            end
      | [] => None
      end
  end.

Definition invalid_syntax {A : Type} : result A :=
  Raise (Exc SyntaxError "invalid syntax").

(** [ast.parse(text, mode="eval").body] on the fragment.  A text that
    starts with a blank is an indentation error, a syntax error too. *)
Definition parse (text : string) : result ast.expr :=
  if starts_with (fun c => Nat.leb (nat_of_ascii c) 32) text then invalid_syntax
  else
    match tokens text with
    | Some ts =>
        match expression (4 * S (length ts)) ts with
        | Some (e, []) => Ok e
        | _ => invalid_syntax
        end
    | None => invalid_syntax
    end.

(** *** JSON documents *)

Definition named_constant (s : string) : option pyval :=
  if String.eqb s "true" then Some (VBool true)
  else if String.eqb s "false" then Some (VBool false)
  else if String.eqb s "null" then Some VNone
  else None.

(** [value] reads one JSON value; [array] the values of an array after
    its bracket, [members] the members of an object after its brace, both
    non-empty and up to the closing sign. *)
Fixpoint value (fuel : nat) (ts : list token) : option (pyval * list token) :=
  match fuel with
  | O => None
  | S fuel' =>
      match ts with
      | TStr true s :: rest => Some (VStr s, rest)
      | TInt z :: rest => Some (VInt z, rest)
      | TName s :: rest =>
          match named_constant s with
          | Some v => Some (v, rest)
          | None => None
          end
      | TPunct c :: rest =>
          if Ascii.eqb c "["%char then
            match rest with
            | t :: rest' =>
                if punct "]" t then Some (VList [], rest')
                else match array fuel' rest with
                     | Some (vs, more) => Some (VList vs, more)
                     | None => None
                     end
            | [] => None
            end
          else if Ascii.eqb c "{"%char then
            match rest with
            | t :: rest' =>
                if punct "}" t then Some (VDict [], rest')
                else match members fuel' rest with
                     | Some (items, more) => Some (VDict items, more)
                     | None => None
                     end
            | [] => None
            end
          else None
      | _ => None
      end
  end
with array (fuel : nat) (ts : list token) : option (list pyval * list token) :=
  match fuel with
  | O => None
  | S fuel' =>
      match value fuel' ts with
      | Some (v, t :: more) =>
          if punct "]" t then Some ([v], more)
          else if punct "," t then
            match array fuel' more with
            | Some (vs, final) => Some (v :: vs, final)
            | None => None
            end
          else None
      | _ => None
      end
  end
with members (fuel : nat) (ts : list token)
  : option (list (pyval * pyval) * list token) :=
  match fuel with
  | O => None
  | S fuel' =>
      match ts with
      | TStr true k :: colon :: rest =>
          if punct ":" colon then
            match value fuel' rest with
            | Some (v, t :: more) =>
                if punct "}" t then Some ([(VStr k, v)], more)
                else if punct "," t then
                  match members fuel' more with
                  | Some (items, final) => Some ((VStr k, v) :: items, final)
                  | None => None
                  end
                else None
            | _ => None
            end
          else None
      | _ => None
      end
  end.

Definition not_blank (t : token) : bool :=
  match t with TBlank => false | _ => true end.

(** [json.loads(text)] on the fragment. *)
Definition loads (text : string) : result pyval :=
  match tokens text with
  | Some ts =>
      let ts := filter not_blank ts in
      match value (2 * S (length ts)) ts with
      | Some (v, []) => Ok v
      | _ => Raise (Exc JSONDecodeError "Expecting value")
      end
  | None => Raise (Exc JSONDecodeError "Expecting value")
  end.

(** [str(v)] for the values that the scenarios format: a text is itself, an
    integer its decimal digits, the constants their names.  Floats, bytes
    and containers, whose [repr] is not modelled, are shown as [<value>]. *)
Definition str (v : pyval) : string :=
  match v with
  | VStr s => s
  | VNone => "None"
  | VEllipsis => "Ellipsis"
  | VBool true => "True"
  | VBool false => "False"
  | VInt z => NilZero.string_of_int (Z.to_int z)
  | _ => "<value>"
  end.

(** [print(f"...")] where it depends on the values alone: [str] refuses an
    [int] of more than 4300 decimal digits (CPython 3.11 and later); every
    other line is written. *)
Definition too_long (part : fpart) : bool :=
  match part with
  | Fmt (VInt z) => Z.leb (10 ^ 4300) (Z.abs z)
  | _ => false
  end.

Definition print (parts : list fpart) : result unit :=
  if existsb too_long parts
  then Raise (Exc ValueError "Exceeds the limit (4300 digits) for integer string conversion")
  else Ok tt.

End Fragment.

(** ** Reading the dispatch loop: which branch, which states

    These definitions are not in the source: they name what its branches
    test and build, so that the statements about them stay short.  The
    lemmas of the next part tie each of them to the program above. *)

Section Reading.

Context {W : Type} (ext : Externals W).

(** The branch of the [if]/[elif] chain that a text selects, by the name of
    the function it is about. *)
Definition detected (content : string) : option string :=
  if contains "get_now_playing_movies()" content then Some "get_now_playing_movies"
  else if contains "get_showtimes(" content then Some "get_showtimes"
  else if contains "confirm_ticket_purchase(" content then Some "confirm_ticket_purchase"
  else if contains "buy_ticket(" content then Some "buy_ticket"
  else None.

(** The state after [message_history.append(m)]. *)
Definition appended (st : state W) (m : Message) : state W :=
  mk_state (message_history st ++ [m])%list (session_set st) (world st) (trace st).

(** The state after a call [e] into the world that left it as [w]. *)
Definition called (st : state W) (e : event) (w : W) : state W :=
  mk_state (message_history st) (session_set st) w (trace st ++ [e])%list.

(** The reply of the model to the history of [st], streamed. *)
Definition reply (st : state W) : string :=
  fst (completions_create ext (message_history st) true (world st)).

(** The state after that reply has been generated, shown and appended. *)
Definition regenerated (st : state W) : state W :=
  mk_state (message_history st ++ [msg assistant (reply st)])%list
           true
           (snd (completions_create ext (message_history st) true (world st)))
           (trace st ++ [Completion (message_history st) true; Sent (reply st)])%list.

(** The exception of a call that [except Exception] does not catch, if the
    call raised one. *)
Definition escaping (r : result string) : option exception :=
  match r with
  | Raise e => if is_Exception e then None else Some e
  | Ok _ => None
  end.

(** The lines printed before the calls of [get_showtimes] and [buy_ticket]. *)
Definition showtimes_line (movie location : pyval) : list fpart :=
  [Lit "Movie: "; Fmt movie; Lit ", Location: "; Fmt location].

Definition ticket_line (theater movie showtime : pyval) : list fpart :=
  [Lit "Theater: "; Fmt theater; Lit ", Movie: "; Fmt movie;
   Lit ", Showtime: "; Fmt showtime].

(** The text a [try]/[except] around a call leaves in its variable. *)
Definition text_or_error (doing : string) (r : result string) : string :=
  match r with
  | Ok text => text
  | Raise e => "An error occurred while " ++ doing ++ ": " ++ exc_str e
  end.

(** One time round the loop on [content] from [st]: how it ends and the
    state it leaves, branch by branch. *)
Inductive cycle (content : string) (st : state W)
  : outcome (option string) -> state W -> Prop :=
| cycle_now_playing : forall text w,
    detected content = Some "get_now_playing_movies" ->
    get_now_playing_movies ext (world st) = (Ok text, w) ->
    let st1 := appended (called st (Invoked "get_now_playing_movies" []) w)
                        (msg system ("Current movies:" ++ LF ++ LF ++ " " ++ text)) in
    cycle content st (Returns (Some (reply st1))) (regenerated st1)
| cycle_now_playing_raises : forall e w,
    detected content = Some "get_now_playing_movies" ->
    get_now_playing_movies ext (world st) = (Raise e, w) ->
    cycle content st (Raises e) (called st (Invoked "get_now_playing_movies" []) w)
| cycle_showtimes_unparsed : forall e,
    detected content = Some "get_showtimes" ->
    parse_function_call_args ext content = Raise e ->
    cycle content st (Raises e) st
| cycle_showtimes_shape : forall args e,
    detected content = Some "get_showtimes" ->
    parse_function_call_args ext content = Ok args ->
    unpack2 args = Raise e ->
    cycle content st (Raises e) st
| cycle_showtimes_print : forall movie location e,
    detected content = Some "get_showtimes" ->
    parse_function_call_args ext content = Ok [movie; location] ->
    print_fstring ext (showtimes_line movie location) = Raise e ->
    cycle content st (Raises e) st
| cycle_showtimes_escapes : forall movie location r e w,
    detected content = Some "get_showtimes" ->
    parse_function_call_args ext content = Ok [movie; location] ->
    print_fstring ext (showtimes_line movie location) = Ok tt ->
    get_showtimes ext movie location (world st) = (r, w) ->
    escaping r = Some e ->
    cycle content st (Raises e) (called st (Invoked "get_showtimes" [movie; location]) w)
| cycle_showtimes : forall movie location r w,
    detected content = Some "get_showtimes" ->
    parse_function_call_args ext content = Ok [movie; location] ->
    print_fstring ext (showtimes_line movie location) = Ok tt ->
    get_showtimes ext movie location (world st) = (r, w) ->
    escaping r = None ->
    let st1 := appended (called st (Invoked "get_showtimes" [movie; location]) w)
                        (msg system (text_or_error "fetching showtimes" r)) in
    cycle content st (Returns (Some (reply st1))) (regenerated st1)
| cycle_confirm :
    detected content = Some "confirm_ticket_purchase" ->
    let st1 := appended st (msg system ("The user has confirmed their purchase for "
                                        ++ content)) in
    cycle content st (Returns (Some (reply st1))) (regenerated st1)
| cycle_buy_unparsed : forall e,
    detected content = Some "buy_ticket" ->
    parse_function_call_args ext content = Raise e ->
    cycle content st (Raises e) st
| cycle_buy_shape : forall args e,
    detected content = Some "buy_ticket" ->
    parse_function_call_args ext content = Ok args ->
    unpack3 args = Raise e ->
    cycle content st (Raises e) st
| cycle_buy_print : forall theater movie showtime e,
    detected content = Some "buy_ticket" ->
    parse_function_call_args ext content = Ok [theater; movie; showtime] ->
    print_fstring ext (ticket_line theater movie showtime) = Raise e ->
    cycle content st (Raises e) st
| cycle_buy_escapes : forall theater movie showtime r e w,
    detected content = Some "buy_ticket" ->
    parse_function_call_args ext content = Ok [theater; movie; showtime] ->
    print_fstring ext (ticket_line theater movie showtime) = Ok tt ->
    buy_ticket ext theater movie showtime (world st) = (r, w) ->
    escaping r = Some e ->
    cycle content st (Raises e)
          (called st (Invoked "buy_ticket" [theater; movie; showtime]) w)
| cycle_buy : forall theater movie showtime r w,
    detected content = Some "buy_ticket" ->
    parse_function_call_args ext content = Ok [theater; movie; showtime] ->
    print_fstring ext (ticket_line theater movie showtime) = Ok tt ->
    buy_ticket ext theater movie showtime (world st) = (r, w) ->
    escaping r = None ->
    let st1 := appended (called st (Invoked "buy_ticket" [theater; movie; showtime]) w)
                        (msg system (text_or_error "purchasing the ticket" r)) in
    cycle content st (Returns (Some (reply st1))) (regenerated st1)
| cycle_break :
    detected content = None ->
    cycle content st (Returns None) st.

(** The messages sent to the model by [add_review_context_if_needed] for
    the history [h]: a copy with the review prompt at index 0, and the
    review prompt once more at the end. *)
Definition review_request (h : list Message) : list Message :=
  (msg system review_prompt :: tl h ++ [msg system review_prompt])%list.

(** The decision the model gives on that request, and the state once it
    has been asked. *)
Definition decision (st : state W) : string :=
  fst (completions_create ext (review_request (message_history st)) false (world st)).

Definition asked (st : state W) : state W :=
  called st (Completion (review_request (message_history st)) false)
         (snd (completions_create ext (review_request (message_history st)) false
                                  (world st))).

(** The text the [try]/[except] around [get_reviews] leaves in [reviews]. *)
Definition review_text (movie : pyval) (r : result string) : string :=
  match r with
  | Ok text => "Reviews for " ++ py_str ext movie ++ ":" ++ LF ++ LF ++ text
  | Raise e => "An error occurred while fetching reviews: " ++ exc_str e
  end.

(** [add_review_context_if_needed] from [st]: how it ends and the state it
    leaves, path by path. *)
Inductive augmentation (st : state W) : outcome unit -> state W -> Prop :=
| augmentation_no_history :
    message_history st = [] ->
    augmentation st (Raises (Exc IndexError "list assignment index out of range")) st
| augmentation_unparsed : forall e,
    message_history st <> [] ->
    json_loads ext (decision st) = Raise e ->
    augmentation st (Raises e) (asked st)
| augmentation_not_object : forall d e,
    message_history st <> [] ->
    json_loads ext (decision st) = Ok d ->
    dict_get d "fetch_reviews" (VBool false) = Raise e ->
    augmentation st (Raises e) (asked st)
| augmentation_declined : forall d fetch_reviews,
    message_history st <> [] ->
    json_loads ext (decision st) = Ok d ->
    dict_get d "fetch_reviews" (VBool false) = Ok fetch_reviews ->
    truthy fetch_reviews = false ->
    augmentation st (Returns tt) (asked st)
| augmentation_escapes : forall d fetch_reviews movie movie_id r e w,
    message_history st <> [] ->
    json_loads ext (decision st) = Ok d ->
    dict_get d "fetch_reviews" (VBool false) = Ok fetch_reviews ->
    truthy fetch_reviews = true ->
    dict_get d "movie" VNone = Ok movie ->
    dict_get d "id" VNone = Ok movie_id ->
    get_reviews ext movie_id (world (asked st)) = (r, w) ->
    escaping r = Some e ->
    augmentation st (Raises e) (called (asked st) (Invoked "get_reviews" [movie_id]) w)
| augmentation_fetched : forall d fetch_reviews movie movie_id r w,
    message_history st <> [] ->
    json_loads ext (decision st) = Ok d ->
    dict_get d "fetch_reviews" (VBool false) = Ok fetch_reviews ->
    truthy fetch_reviews = true ->
    dict_get d "movie" VNone = Ok movie ->
    dict_get d "id" VNone = Ok movie_id ->
    get_reviews ext movie_id (world (asked st)) = (r, w) ->
    escaping r = None ->
    augmentation st (Returns tt)
      (appended (called (asked st) (Invoked "get_reviews" [movie_id]) w)
                (msg system ("MOVIE REVIEW CONTEXT:" ++ LF ++ LF ++ review_text movie r))).

(** The state after [cl.user_session.get("message_history", [])]: the list
    that the session holds, or a new empty list. *)
Definition opened (st : state W) : state W :=
  if session_set st then st else mk_state [] false (world st) (trace st).

(** The argument nodes that are no literal: an identifier, an attribute
    access, a comprehension, and a call other than the [set()] that
    [literal_eval] reads as the empty set. *)
Definition non_literal (node : ast.expr) : bool :=
  match node with
  | ast.Name _ | ast.Attribute _ _ | ast.Comp _ _ _ => true
  | ast.Call (ast.Name id) args keywords =>
      negb (String.eqb id "set" && ast.is_empty args && ast.is_empty keywords)
  | ast.Call _ _ _ => true
  | _ => false
  end.

(** The number of values each branch that calls a movie function takes out
    of the text: none, the two of [movie, location = ...], the three of
    [theater, movie, showtime = ...]. *)
Definition extracted_arity (name : string) : option nat :=
  if String.eqb name "get_now_playing_movies" then Some 0
  else if String.eqb name "get_showtimes" then Some 2
  else if String.eqb name "buy_ticket" then Some 3
  else None.

(** The line a branch prints between the unpacking and the call, for the
    two branches that print one. *)
Definition printed_line (name : string) (values : list pyval) : option (list fpart) :=
  match values with
  | [movie; location] =>
      if String.eqb name "get_showtimes" then Some (showtimes_line movie location)
      else None
  | [theater; movie; showtime] =>
      if String.eqb name "buy_ticket" then Some (ticket_line theater movie showtime)
      else None
  | _ => None
  end.

(** That [print], run: it returns, or raises what formatting or writing the
    values raises. *)
Definition printing (name : string) (values : list pyval) : result unit :=
  match printed_line name values with
  | Some line => print_fstring ext line
  | None => Ok tt
  end.

(** The call a branch makes with the values it has unpacked, from the
    world [w]. *)
Definition invoke (name : string) (values : list pyval) (w : W)
  : option (result string * W) :=
  match values with
  | [] =>
      if String.eqb name "get_now_playing_movies"
      then Some (get_now_playing_movies ext w) else None
  | [movie; location] =>
      if String.eqb name "get_showtimes"
      then Some (get_showtimes ext movie location w) else None
  | [theater; movie; showtime] =>
      if String.eqb name "buy_ticket"
      then Some (buy_ticket ext theater movie showtime w) else None
  | _ => None
  end.

(** The argument step of the two branches that have one: the text is
    parsed and the list unpacked into two or three names. *)
Definition extract_arguments (name content : string) : result (list pyval) :=
  match parse_function_call_args ext content with
  | Raise e => Raise e
  | Ok args =>
      if String.eqb name "get_showtimes" then
        match unpack2 args with Ok _ => Ok args | Raise e => Raise e end
      else if String.eqb name "buy_ticket" then
        match unpack3 args with Ok _ => Ok args | Raise e => Raise e end
      else Ok args
  end.

(** The class of the exception that leaves a handler, if one does. *)
Definition raised_class {A : Type} (o : outcome A) : option exc_class :=
  match o with
  | Raises e => Some (exc_cls e)
  | _ => None
  end.

(** The events of [st'] that [st] did not have yet. *)
Definition events_since (st st' : state W) : list event :=
  skipn (length (trace st)) (trace st').

Definition is_invocation (e : event) : bool :=
  match e with Invoked _ _ => true | _ => false end.

Definition calls_since (st st' : state W) : nat :=
  length (filter is_invocation (events_since st st')).

Definition invocation_of (function : string) (e : event) : bool :=
  match e with Invoked f _ => String.eqb f function | _ => false end.

(** The operations of a turn on the session. *)
Inductive turn_operation (st : state W) : state W -> Prop :=
| op_user_message : forall content,
    turn_operation st (snd (append (msg user content) st))
| op_augment :
    turn_operation st (snd (add_review_context_if_needed ext st))
| op_generate :
    turn_operation st (snd (regenerate ext st))
| op_cycle : forall content,
    turn_operation st (snd (dispatch_cycle ext content st))
| op_loop : forall fuel content,
    turn_operation st (snd (dispatch_loop ext fuel content st))
| op_turn : forall fuel content,
    turn_operation st (snd (on_message ext fuel content st)).

(** The states of a session created at chat start. *)
Inductive reachable : state W -> Prop :=
| reach_start : forall w tr, reachable (on_chat_start w tr)
| reach_step : forall st st',
    reachable st -> turn_operation st st' -> reachable st'.

End Reading.

(** ** Scenarios: a scripted model and fixed answers of the movie functions *)

Module Scenario.

Definition is_assistant (m : Message) : bool :=
  match msg_role m with assistant => true | _ => false end.

(** The decision that asks for no review: [{"fetch_reviews": false}]. *)
Definition no_reviews : string := "{" ++ quoted "fetch_reviews" ++ ": false}".

(** A model that answers the streamed requests of a session from a list,
    the one after [k] assistant messages with the [k]-th text (the empty
    text past the end), and every decision request with [decision]. *)
Definition script (replies : list string) (decision : string)
  : list Message -> bool -> string :=
  fun history stream =>
    if stream then nth (length (filter is_assistant history)) replies ""
    else decision.

(** A model that gives the same text to every streamed request. *)
Definition repeating (text : string) (decision : string)
  : list Message -> bool -> string :=
  fun _ stream => if stream then text else decision.

(** The externals of a scenario: the fragment parsers, a model and one
    fixed outcome for each movie function.  The world has no state. *)
Definition externals (model : list Message -> bool -> string)
           (now_playing showtimes ticket reviews : result string) : Externals unit :=
  {| ast_parse := Fragment.parse;
     json_loads := Fragment.loads;
     py_str := Fragment.str;
     print_fstring := Fragment.print;
     completions_create := fun history stream w => (model history stream, w);
     get_now_playing_movies := fun w => (now_playing, w);
     get_showtimes := fun _ _ w => (showtimes, w);
     buy_ticket := fun _ _ _ w => (ticket, w);
     get_reviews := fun _ w => (reviews, w) |}.

(** Every movie function answers. *)
Definition answering (model : list Message -> bool -> string) : Externals unit :=
  externals model (Ok "Dune, Wicked") (Ok "7pm, 9pm") (Ok "Ticket purchased")
            (Ok "A triumph.").

(** Every movie function raises. *)
Definition failing (model : list Message -> bool -> string) : Externals unit :=
  let e := Raise (Exc (OtherException "ConnectionError") "connection refused") in
  externals model e e e e.

(** The session right after [on_chat_start]. *)
Definition fresh : state unit := on_chat_start tt [].

Definition buy_text : string :=
  "buy_ticket(" ++ quoted "A" ++ "," ++ quoted "B" ++ "," ++ quoted "7pm" ++ ")".

(** A [buy_ticket] call whose first argument is the text [get_showtimes(]. *)
Definition shadowed_buy_text : string :=
  "buy_ticket(" ++ quoted "get_showtimes(" ++ "," ++ quoted "B" ++ "," ++ quoted "7pm" ++ ")".

Definition confirm_text : string :=
  "confirm_ticket_purchase(" ++ quoted "A" ++ "," ++ quoted "B" ++ "," ++ quoted "7pm" ++ ")".

(** A decision that asks for the reviews of a movie. *)
Definition fetch_decision : string :=
  "{" ++ quoted "movie" ++ ": " ++ quoted "Dune" ++ ", " ++ quoted "id" ++ ": 693134, "
      ++ quoted "fetch_reviews" ++ ": true, " ++ quoted "rationale" ++ ": "
      ++ quoted "the user asks what critics say" ++ "}".

Definition now_playing_text : string := "get_now_playing_movies()".

(** A model that asks for the movies now playing at every request. *)
Definition looping : Externals unit := answering (repeating now_playing_text no_reviews).

(** The same model when the movie functions fail. *)
Definition looping_offline : Externals unit :=
  failing (repeating now_playing_text no_reviews).

(** A model whose call of [get_showtimes] is cut short, and one whose call
    has one argument too few. *)
Definition cut_short : Externals unit :=
  answering (repeating "get_showtimes(" no_reviews).

Definition one_argument : Externals unit :=
  answering (repeating ("get_showtimes(" ++ quoted "Dune" ++ ")") no_reviews).

Definition showtimes_text : string :=
  "get_showtimes(" ++ quoted "Dune" ++ ", " ++ quoted "Paris" ++ ")".

(** A model that asks for showtimes and then answers in prose, while the
    movie functions fail. *)
Definition showtimes_offline : Externals unit :=
  failing (script [showtimes_text; "I could not get the showtimes."] no_reviews).

(** A model that confirms a purchase and then answers in prose. *)
Definition confirming : Externals unit :=
  answering (script [confirm_text; "Shall I buy the ticket?"] no_reviews).

(** A model whose decision is prose, not JSON. *)
Definition undecided : Externals unit :=
  answering (script ["Dune is well reviewed."] "I need more information.").

(** A model whose decision asks for reviews. *)
Definition reviewing : Externals unit :=
  answering (script ["Critics call it a triumph."] fetch_decision).

(** A model that answers in prose, and whose decision calls for nothing. *)
Definition plain : Externals unit := answering (repeating "" no_reviews).

End Scenario.

(** ** Reading the values and the turn: further definitions *)

(** The number constants: [int], [float] and [complex], not [bool]. *)
Definition number (node : ast.expr) : bool :=
  match node with
  | ast.Constant (ast.CInt _) | ast.Constant (ast.CFloat _)
  | ast.Constant (ast.CComplex _ _) => true
  | _ => false
  end.

(** A number constant that is no [complex], under a sign or under none. *)
Definition signed_real (node : ast.expr) : bool :=
  match node with
  | ast.Constant (ast.CInt _) | ast.Constant (ast.CFloat _) => true
  | ast.UnaryOp ast.UAdd (ast.Constant (ast.CInt _))
  | ast.UnaryOp ast.UAdd (ast.Constant (ast.CFloat _))
  | ast.UnaryOp ast.USub (ast.Constant (ast.CInt _))
  | ast.UnaryOp ast.USub (ast.Constant (ast.CFloat _)) => true
  | _ => false
  end.

Definition complex_constant (node : ast.expr) : bool :=
  match node with
  | ast.Constant (ast.CComplex _ _) => true
  | _ => false
  end.

(** The nodes that [literal_eval] can evaluate, by their shape at every
    depth: constants, a [+] or [-] sign on a number constant, the sum or
    difference of a signed real number and a complex constant ([1+2j]), the
    displays of tuples, lists, sets and dicts of such nodes, and the call
    [set()]. *)
Fixpoint literal_shape (node : ast.expr) : bool :=
  match node with
  | ast.Constant _ => true
  | ast.UnaryOp ast.UAdd operand | ast.UnaryOp ast.USub operand => number operand
  | ast.BinOp lhs ast.Add rhs | ast.BinOp lhs ast.Sub rhs =>
      signed_real lhs && complex_constant rhs
  | ast.Tuple elts | ast.List elts | ast.Set_ elts => forallb literal_shape elts
  | ast.Dict keys values =>
      forallb (fun k => match k with
                        | Some k => literal_shape k
                        | None => false
                        end) keys
      && forallb literal_shape values
  | ast.Call (ast.Name id) args keywords =>
      String.eqb id "set" && ast.is_empty args && ast.is_empty keywords
  | _ => false
  end.

(** The displays, the nodes whose elements [literal_eval] goes into. *)
Definition is_display (node : ast.expr) : bool :=
  match node with
  | ast.Tuple _ | ast.List _ | ast.Set_ _ | ast.Dict _ _ => true
  | _ => false
  end.

(** The texts of the assistant messages of a history, and the texts shown
    by a sequence of events, both in order. *)
Definition assistant_texts (history : list Message) : list string :=
  map msg_content
      (filter (fun m => match msg_role m with assistant => true | _ => false end) history).

Fixpoint sent_texts (evs : list event) : list string :=
  match evs with
  | [] => []
  | Sent c :: rest => c :: sent_texts rest
  | _ :: rest => sent_texts rest
  end.

(** The texts of the user messages of a history, in order. *)
Definition user_texts (history : list Message) : list string :=
  map msg_content
      (filter (fun m => match msg_role m with user => true | _ => false end) history).

(** More scenarios. *)
Module Edge.

(** A session that [on_chat_start] has not set up. *)
Definition unset : state unit := mk_state [] false tt [].

(** A model that asks for the movies now playing, then answers in prose. *)
Definition one_call : Externals unit :=
  Scenario.answering
    (Scenario.script [Scenario.now_playing_text; "Dune and Wicked are playing."]
                     Scenario.no_reviews).

(** Decisions: an empty object, an array, an object that asks for reviews
    and names no movie. *)
Definition empty_decision : Externals unit :=
  Scenario.answering (Scenario.script ["Hello!"] "{}").

Definition array_decision : Externals unit :=
  Scenario.answering (Scenario.script ["Hello!"] "[1]").

Definition bare_fetch : string := "{" ++ quoted "fetch_reviews" ++ ": true}".

Definition nameless_decision : Externals unit :=
  Scenario.answering (Scenario.script ["Hello!"] bare_fetch).

(** A model whose decision asks for reviews while the movie functions fail. *)
Definition reviews_offline : Externals unit :=
  Scenario.failing (Scenario.script ["I could not find reviews."] Scenario.fetch_decision).

(** A call of another function, with a keyword argument, that contains
    [get_showtimes(]. *)
Definition other_callee_text : string :=
  "my_get_showtimes(" ++ quoted "Dune" ++ ", " ++ quoted "Paris" ++ ", when="
                      ++ quoted "now" ++ ")".

(** A text with a confirmation and a purchase. *)
Definition confirm_and_buy_text : string :=
  Scenario.confirm_text ++ " " ++ Scenario.buy_text.

(** A call with an identifier inside a list display. *)
Definition nested_name_text : string :=
  "get_showtimes([user.city], " ++ quoted "Paris" ++ ")".

(** The float [m * 2^e]. *)
Definition float (m e : Z) : spec_float := binary_normalize 53 1024 m e false.

(** Every movie function is interrupted from the keyboard. *)
Definition interrupted (model : list Message -> bool -> string) : Externals unit :=
  let e := Raise (Exc (BaseOnly "KeyboardInterrupt") "") in
  Scenario.externals model e e e e.

(** A model whose decision asks for reviews while the functions are
    interrupted. *)
Definition reviews_interrupted : Externals unit :=
  interrupted (Scenario.script ["I could not find reviews."] Scenario.fetch_decision).

(** A call of [get_showtimes] whose first argument is the integer written
    [0x] and four thousand times [F], of more than 4300 decimal digits. *)
Fixpoint copies (n : nat) (c : ascii) : string :=
  match n with
  | O => EmptyString
  | S n' => String c (copies n' c)
  end.

Definition huge_number_text : string :=
  "get_showtimes(0x" ++ copies 4000 "F" ++ ", " ++ quoted "Paris" ++ ")".

(** A call of [get_showtimes] with its two arguments given by keyword. *)
Definition keyword_call_text : string :=
  "get_showtimes(movie=" ++ quoted "Dune" ++ ", location=" ++ quoted "Paris" ++ ")".

End Edge.

(** * Properties *)

Section Properties.

Context {W : Type} (ext : Externals W).

(** ** The monad's steps, run *)

Lemma external_run {A : Type} (e : event) (f : W -> A * W) (st : state W) :
  external e f st = (Returns (fst (f (world st))), called st e (snd (f (world st)))).
Proof. unfold external, called. destruct (f (world st)). reflexivity. Qed.

Lemma regenerate_run (st : state W) :
  regenerate ext st = (Returns (Some (reply ext st)), regenerated ext st).
Proof.
  unfold regenerate, generate_response, bind, get_history, external, emit, append,
    user_session_set, ret, regenerated, reply.
  destruct (completions_create ext (message_history st) true (world st)) as [c w].
  simpl. rewrite <- app_assoc. reflexivity.
Qed.

(** [dispatch_cycle] takes one of the ten paths of [cycle]. *)
Lemma dispatch_cycle_cycle (content : string) (st : state W) :
  cycle ext content st (fst (dispatch_cycle ext content st))
        (snd (dispatch_cycle ext content st)).
Proof.
  destruct (dispatch_cycle ext content st) as [o st'] eqn:Hrun. simpl.
  unfold dispatch_cycle in Hrun.
  destruct (contains "get_now_playing_movies()" content) eqn:Hnp.
  { assert (Hd : detected content = Some "get_now_playing_movies")
      by (unfold detected; rewrite Hnp; reflexivity).
    unfold bind, external, lift, append in Hrun.
    destruct (get_now_playing_movies ext (world st)) as [[text | e] w] eqn:Hcall.
    - rewrite regenerate_run in Hrun. injection Hrun as <- <-.
      exact (cycle_now_playing ext content st text w Hd Hcall).
    - injection Hrun as <- <-.
      exact (cycle_now_playing_raises ext content st e w Hd Hcall). }
  destruct (contains "get_showtimes(" content) eqn:Hst.
  { assert (Hd : detected content = Some "get_showtimes")
      by (unfold detected; rewrite Hnp, Hst; reflexivity).
    unfold bind, external, lift, append, except_Exception in Hrun.
    destruct (parse_function_call_args ext content) as [args | e] eqn:Hparse.
    2:{ injection Hrun as <- <-.
        exact (cycle_showtimes_unparsed ext content st e Hd Hparse). }
    destruct (unpack2 args) as [[movie location] | e] eqn:Hshape.
    2:{ injection Hrun as <- <-.
        exact (cycle_showtimes_shape ext content st args e Hd Hparse Hshape). }
    assert (args = [movie; location]) as ->.
    { destruct args as [| a [| b [| c l]]]; simpl in Hshape; try discriminate.
      injection Hshape as -> ->. reflexivity. }
    change [Lit "Movie: "; Fmt movie; Lit ", Location: "; Fmt location]
      with (showtimes_line movie location) in Hrun.
    destruct (print_fstring ext (showtimes_line movie location)) as [[] | e] eqn:Hprint.
    2:{ injection Hrun as <- <-.
        exact (cycle_showtimes_print ext content st movie location e Hd Hparse Hprint). }
    destruct (get_showtimes ext movie location (world st)) as [[text | e] w] eqn:Hcall.
    - rewrite regenerate_run in Hrun. injection Hrun as <- <-.
      exact (cycle_showtimes ext content st movie location (Ok text) w
               Hd Hparse Hprint Hcall eq_refl).
    - destruct (is_Exception e) eqn:He.
      + rewrite regenerate_run in Hrun. injection Hrun as <- <-.
        assert (Hesc : escaping (Raise e) = None) by (simpl; rewrite He; reflexivity).
        exact (cycle_showtimes ext content st movie location (Raise e) w
                 Hd Hparse Hprint Hcall Hesc).
      + injection Hrun as <- <-.
        assert (Hesc : escaping (Raise e) = Some e) by (simpl; rewrite He; reflexivity).
        exact (cycle_showtimes_escapes ext content st movie location (Raise e) e w
                 Hd Hparse Hprint Hcall Hesc). }
  destruct (contains "confirm_ticket_purchase(" content) eqn:Hcf.
  { assert (Hd : detected content = Some "confirm_ticket_purchase")
      by (unfold detected; rewrite Hnp, Hst, Hcf; reflexivity).
    unfold bind, append in Hrun.
    rewrite regenerate_run in Hrun. injection Hrun as <- <-.
    exact (cycle_confirm ext content st Hd). }
  destruct (contains "buy_ticket(" content) eqn:Hbt.
  { assert (Hd : detected content = Some "buy_ticket")
      by (unfold detected; rewrite Hnp, Hst, Hcf, Hbt; reflexivity).
    unfold bind, external, lift, append, except_Exception in Hrun.
    destruct (parse_function_call_args ext content) as [args | e] eqn:Hparse.
    2:{ injection Hrun as <- <-.
        exact (cycle_buy_unparsed ext content st e Hd Hparse). }
    destruct (unpack3 args) as [[[theater movie] showtime] | e] eqn:Hshape.
    2:{ injection Hrun as <- <-.
        exact (cycle_buy_shape ext content st args e Hd Hparse Hshape). }
    assert (args = [theater; movie; showtime]) as ->.
    { destruct args as [| a [| b [| c [| d l]]]]; simpl in Hshape; try discriminate.
      injection Hshape as -> -> ->. reflexivity. }
    change [Lit "Theater: "; Fmt theater; Lit ", Movie: "; Fmt movie;
            Lit ", Showtime: "; Fmt showtime]
      with (ticket_line theater movie showtime) in Hrun.
    destruct (print_fstring ext (ticket_line theater movie showtime)) as [[] | e] eqn:Hprint.
    2:{ injection Hrun as <- <-.
        exact (cycle_buy_print ext content st theater movie showtime e Hd Hparse Hprint). }
    destruct (buy_ticket ext theater movie showtime (world st)) as [[text | e] w] eqn:Hcall.
    - rewrite regenerate_run in Hrun. injection Hrun as <- <-.
      exact (cycle_buy ext content st theater movie showtime (Ok text) w
               Hd Hparse Hprint Hcall eq_refl).
    - destruct (is_Exception e) eqn:He.
      + rewrite regenerate_run in Hrun. injection Hrun as <- <-.
        assert (Hesc : escaping (Raise e) = None) by (simpl; rewrite He; reflexivity).
        exact (cycle_buy ext content st theater movie showtime (Raise e) w
                 Hd Hparse Hprint Hcall Hesc).
      + injection Hrun as <- <-.
        assert (Hesc : escaping (Raise e) = Some e) by (simpl; rewrite He; reflexivity).
        exact (cycle_buy_escapes ext content st theater movie showtime (Raise e) e w
                 Hd Hparse Hprint Hcall Hesc). }
  injection Hrun as <- <-.
  apply cycle_break. unfold detected. rewrite Hnp, Hst, Hcf, Hbt. reflexivity.
Qed.

Ltac detect H :=
  unfold detected in H;
  destruct (contains "get_now_playing_movies()" _) eqn:?;
  [| destruct (contains "get_showtimes(" _) eqn:?;
     [| destruct (contains "confirm_ticket_purchase(" _) eqn:?;
        [| destruct (contains "buy_ticket(" _) eqn:? ] ] ];
  try discriminate H.

Lemma escaping_none (prefix doing : string) (r : result string) :
  escaping r = None ->
  (forall s, prefix ++ s = "An error occurred while " ++ doing ++ ": " ++ s) ->
  except_Exception prefix r = Ok (text_or_error doing r).
Proof.
  intros Hesc Hprefix. destruct r as [text | e]; [reflexivity |].
  unfold except_Exception, text_or_error, escaping in *.
  destruct (is_Exception e); [rewrite Hprefix; reflexivity | discriminate Hesc].
Qed.

Lemma escaping_some (prefix : string) (r : result string) (e : exception) :
  escaping r = Some e -> except_Exception prefix r = Raise e.
Proof.
  destruct r as [text | e']; simpl; [discriminate |].
  destruct (is_Exception e'); [discriminate |]. intros H. injection H as ->. reflexivity.
Qed.

(** ... and [cycle] describes nothing else: the relation is the function. *)
Lemma cycle_dispatch_cycle (content : string) (st st' : state W)
      (o : outcome (option string)) :
  cycle ext content st o st' -> dispatch_cycle ext content st = (o, st').
Proof.
  intros H. destruct H as
    [text w Hd Hcall | e w Hd Hcall | e Hd Hparse | args e Hd Hparse Hshape
     | movie location e Hd Hparse Hprint
     | movie location r e w Hd Hparse Hprint Hcall Hesc
     | movie location r w Hd Hparse Hprint Hcall Hesc | Hd | e Hd Hparse
     | args e Hd Hparse Hshape
     | theater movie showtime e Hd Hparse Hprint
     | theater movie showtime r e w Hd Hparse Hprint Hcall Hesc
     | theater movie showtime r w Hd Hparse Hprint Hcall Hesc | Hd];
    detect Hd; unfold dispatch_cycle;
    repeat match goal with Hc : contains _ content = _ |- _ => rewrite Hc; clear Hc end;
    unfold bind, external, lift, append;
    try rewrite Hparse; try rewrite Hshape;
    cbv beta iota delta [unpack2 unpack3];
    try (change [Lit "Movie: "; Fmt movie; Lit ", Location: "; Fmt location]
           with (showtimes_line movie location); rewrite Hprint);
    try (change [Lit "Theater: "; Fmt theater; Lit ", Movie: "; Fmt movie;
                 Lit ", Showtime: "; Fmt showtime]
           with (ticket_line theater movie showtime); rewrite Hprint);
    try rewrite Hcall;
    try rewrite (escaping_some _ _ _ Hesc);
    try rewrite (escaping_none "An error occurred while fetching showtimes: "
                   "fetching showtimes" _ Hesc (fun _ => eq_refl));
    try rewrite (escaping_none "An error occurred while purchasing the ticket: "
                   "purchasing the ticket" _ Hesc (fun _ => eq_refl));
    try rewrite regenerate_run; reflexivity.
Qed.

Lemma add_review_context_augmentation (st : state W) :
  augmentation ext st (fst (add_review_context_if_needed ext st))
               (snd (add_review_context_if_needed ext st)).
Proof.
  destruct (add_review_context_if_needed ext st) as [o st'] eqn:Hrun. simpl.
  unfold add_review_context_if_needed, bind, get_history, lift in Hrun.
  destruct (message_history st) as [| m rest] eqn:Hh.
  { injection Hrun as <- <-. apply augmentation_no_history. exact Hh. }
  assert (Hne : message_history st <> []) by (rewrite Hh; discriminate).
  assert (Hreq : ((msg system review_prompt :: rest) ++ [msg system review_prompt])%list
                 = review_request (message_history st))
    by (unfold review_request; rewrite Hh; reflexivity).
  rewrite Hreq in Hrun. rewrite external_run in Hrun.
  change (fst (completions_create ext (review_request (message_history st)) false
                                  (world st)))
    with (decision ext st) in Hrun.
  change (called st (Completion (review_request (message_history st)) false)
                 (snd (completions_create ext (review_request (message_history st))
                                          false (world st))))
    with (asked ext st) in Hrun.
  destruct (json_loads ext (decision ext st)) as [d | e] eqn:Hjson.
  2:{ injection Hrun as <- <-. apply augmentation_unparsed; assumption. }
  destruct (dict_get d "fetch_reviews" (VBool false)) as [f | e] eqn:Hf.
  2:{ injection Hrun as <- <-. eapply augmentation_not_object; eassumption. }
  destruct (truthy f) eqn:Ht.
  2:{ unfold ret in Hrun. injection Hrun as <- <-.
      eapply augmentation_declined; eassumption. }
  destruct (dict_get d "movie" VNone) as [movie | e] eqn:Hm.
  2:{ destruct d; simpl in Hf, Hm; discriminate. }
  destruct (dict_get d "id" VNone) as [movie_id | e] eqn:Hi.
  2:{ destruct d; simpl in Hf, Hi; discriminate. }
  rewrite external_run in Hrun.
  destruct (get_reviews ext movie_id (world (asked ext st))) as [r w'] eqn:Hr.
  unfold append, except_Exception in Hrun. simpl fst in Hrun. simpl snd in Hrun.
  destruct r as [text | e].
  - injection Hrun as <- <-.
    exact (augmentation_fetched ext st d f movie movie_id (Ok text) w'
             Hne Hjson Hf Ht Hm Hi Hr eq_refl).
  - destruct (is_Exception e) eqn:He.
    + injection Hrun as <- <-.
      assert (Hesc : escaping (Raise e : result string) = None)
        by (simpl; rewrite He; reflexivity).
      exact (augmentation_fetched ext st d f movie movie_id (Raise e) w'
               Hne Hjson Hf Ht Hm Hi Hr Hesc).
    + injection Hrun as <- <-.
      assert (Hesc : escaping (Raise e : result string) = Some e)
        by (simpl; rewrite He; reflexivity).
      exact (augmentation_escapes ext st d f movie movie_id (Raise e) e w'
               Hne Hjson Hf Ht Hm Hi Hr Hesc).
Qed.

(** ** What one time round the loop does to the session and the trace *)

Lemma events_since_app (st st' : state W) (evs : list event) :
  trace st' = (trace st ++ evs)%list -> events_since st st' = evs.
Proof.
  intros H. unfold events_since. rewrite H.
  rewrite skipn_app, skipn_all, Nat.sub_diag. reflexivity.
Qed.

(** A cycle only appends to the history, keeps the session stored, and adds
    to the trace at most one call, which is a call of the function its text
    selects; the next text, if any, is one it has just shown. *)
Lemma cycle_effect (content : string) (st st' : state W)
      (o : outcome (option string)) :
  cycle ext content st o st' ->
  (exists added, message_history st' = (message_history st ++ added)%list) /\
  (session_set st = true -> session_set st' = true) /\
  (exists evs,
      trace st' = (trace st ++ evs)%list /\
      (forall f args, In (Invoked f args) evs ->
                      detected content = Some f /\ f <> "confirm_ticket_purchase") /\
      (forall c, o = Returns (Some c) -> In (Sent c) evs) /\
      (forall msgs stream, In (Completion msgs stream) evs -> stream = true) /\
      length (filter is_invocation evs) <= 1).
Proof.
  intros H.
  destruct H as
    [text w Hd Hcall | e w Hd Hcall | e Hd Hparse | args e Hd Hparse Hshape
     | movie location e Hd Hparse Hprint
     | movie location r e w Hd Hparse Hprint Hcall Hesc
     | movie location r w Hd Hparse Hprint Hcall Hesc | Hd | e Hd Hparse
     | args e Hd Hparse Hshape
     | theater movie showtime e Hd Hparse Hprint
     | theater movie showtime r e w Hd Hparse Hprint Hcall Hesc
     | theater movie showtime r w Hd Hparse Hprint Hcall Hesc | Hd].
  all: split; [| split].
  all: try (intros Hs; exact Hs).
  all: try (intros _; reflexivity).
  all: try (exists []; rewrite app_nil_r; reflexivity).
  all: try (eexists; simpl; rewrite <- app_assoc; reflexivity).
  all: try (exists []; rewrite app_nil_r; split; [reflexivity |];
            repeat split; simpl; try contradiction; try discriminate; auto).
  - (* get_now_playing_movies answered *)
    eexists. split; [simpl; rewrite <- app_assoc; reflexivity |].
    repeat split.
    + destruct H as [H | [H | [H | []]]]; try discriminate.
      injection H as <- <-. exact Hd.
    + destruct H as [H | [H | [H | []]]]; try discriminate.
      injection H as <- <-. discriminate.
    + intros c Hc. injection Hc as <-. right. right. left. reflexivity.
    + intros msgs stream [H | [H | [H | []]]]; try discriminate.
      injection H as _ <-. reflexivity.
    + simpl. lia.
  - (* get_now_playing_movies raised *)
    eexists. split; [reflexivity |].
    repeat split.
    + destruct H as [H | []]. injection H as <- <-. exact Hd.
    + destruct H as [H | []]. injection H as <- <-. discriminate.
    + intros c Hc. discriminate.
    + intros msgs stream [H | []]. discriminate.
    + simpl. lia.
  - (* get_showtimes raised past the handler *)
    eexists. split; [reflexivity |].
    repeat split.
    + destruct H as [H | []]. injection H as <- <-. exact Hd.
    + destruct H as [H | []]. injection H as <- <-. discriminate.
    + intros c Hc. discriminate.
    + intros msgs stream [H | []]. discriminate.
    + simpl. lia.
  - (* get_showtimes *)
    eexists. split; [simpl; rewrite <- app_assoc; reflexivity |].
    repeat split.
    + destruct H as [H | [H | [H | []]]]; try discriminate.
      injection H as <- <-. exact Hd.
    + destruct H as [H | [H | [H | []]]]; try discriminate.
      injection H as <- <-. discriminate.
    + intros c Hc. injection Hc as <-. right. right. left. reflexivity.
    + intros msgs stream [H | [H | [H | []]]]; try discriminate.
      injection H as _ <-. reflexivity.
    + simpl. lia.
  - (* confirm_ticket_purchase *)
    eexists. split; [reflexivity |].
    repeat split.
    + destruct H as [H | [H | []]]; discriminate.
    + destruct H as [H | [H | []]]; discriminate.
    + intros c Hc. injection Hc as <-. right. left. reflexivity.
    + intros msgs stream [H | [H | []]]; try discriminate.
      injection H as _ <-. reflexivity.
    + simpl. lia.
  - (* buy_ticket raised past the handler *)
    eexists. split; [reflexivity |].
    repeat split.
    + destruct H as [H | []]. injection H as <- <-. exact Hd.
    + destruct H as [H | []]. injection H as <- <-. discriminate.
    + intros c Hc. discriminate.
    + intros msgs stream [H | []]. discriminate.
    + simpl. lia.
  - (* buy_ticket *)
    eexists. split; [simpl; rewrite <- app_assoc; reflexivity |].
    repeat split.
    + destruct H as [H | [H | [H | []]]]; try discriminate.
      injection H as <- <-. exact Hd.
    + destruct H as [H | [H | [H | []]]]; try discriminate.
      injection H as <- <-. discriminate.
    + intros c Hc. injection Hc as <-. right. right. left. reflexivity.
    + intros msgs stream [H | [H | [H | []]]]; try discriminate.
      injection H as _ <-. reflexivity.
    + simpl. lia.
Qed.

Lemma detected_range (content f : string) :
  detected content = Some f ->
  f = "get_now_playing_movies" \/ f = "get_showtimes" \/
  f = "confirm_ticket_purchase" \/ f = "buy_ticket".
Proof.
  intros H. detect H; injection H as <-; auto.
Qed.

Lemma detected_buy_ticket (content : string) :
  detected content = Some "buy_ticket" -> contains "buy_ticket(" content = true.
Proof. intros H. detect H. reflexivity. Qed.

(** ** What the loop does to the session and the trace *)

Lemma dispatch_loop_step (fuel : nat) (content : string) (st : state W) :
  dispatch_loop ext (S fuel) content st =
  match dispatch_cycle ext content st with
  | (Returns (Some content'), st') => dispatch_loop ext fuel content' st'
  | (Returns None, st') => (Returns tt, st')
  | (Raises e, st') => (Raises e, st')
  | (OutOfFuel, st') => (OutOfFuel, st')
  end.
Proof.
  simpl. unfold bind.
  destruct (dispatch_cycle ext content st) as [[[c |] | e |] st']; reflexivity.
Qed.

(** The loop only appends to the history, keeps the session stored, and
    every call it makes is a call of the function selected by the text it
    started from or by a text it has shown. *)
Lemma dispatch_loop_effect (fuel : nat) :
  forall (content : string) (st : state W),
    let st' := snd (dispatch_loop ext fuel content st) in
    (exists added, message_history st' = (message_history st ++ added)%list) /\
    (session_set st = true -> session_set st' = true) /\
    (exists evs,
        trace st' = (trace st ++ evs)%list /\
        (forall f args, In (Invoked f args) evs ->
                        f <> "confirm_ticket_purchase" /\
                        (detected content = Some f \/
                         exists c, In (Sent c) evs /\ detected c = Some f)) /\
        (forall msgs stream, In (Completion msgs stream) evs -> stream = true)).
Proof.
  induction fuel as [| fuel IH]; intros content st st'.
  - subst st'. simpl. split; [exists []; rewrite app_nil_r; reflexivity |].
    split; [auto |]. exists []. rewrite app_nil_r.
    repeat split; simpl; try contradiction.
  - subst st'. rewrite dispatch_loop_step.
    pose proof (dispatch_cycle_cycle content st) as Hc.
    destruct (dispatch_cycle ext content st) as [o st1]. simpl in Hc.
    destruct (cycle_effect _ _ _ _ Hc)
      as [[added1 Hh1] [Hs1 [evs1 [Ht1 [Hinv1 [Hnext1 [Hstream1 _]]]]]]].
    destruct o as [[c |] | e |]; simpl.
    2-4: (split; [exists added1; exact Hh1 |]; split; [exact Hs1 |];
          exists evs1; split; [exact Ht1 |]; split; [| exact Hstream1];
          intros f args Hin; destruct (Hinv1 f args Hin); auto).
    destruct (IH c st1) as [[added2 Hh2] [Hs2 [evs2 [Ht2 [Hinv2 Hstream2]]]]].
    split; [exists (added1 ++ added2)%list; rewrite Hh2, Hh1, app_assoc; reflexivity |].
    split; [auto |].
    exists (evs1 ++ evs2)%list.
    split; [rewrite Ht2, Ht1, app_assoc; reflexivity |].
    split.
    + intros f args Hin. apply in_app_or in Hin. destruct Hin as [Hin | Hin].
      * destruct (Hinv1 f args Hin). auto.
      * destruct (Hinv2 f args Hin) as [Hne [Hd | [c' [Hc' Hd]]]].
        -- split; [exact Hne |]. right. exists c. split; [| exact Hd].
           apply in_or_app. left. apply Hnext1. reflexivity.
        -- split; [exact Hne |]. right. exists c'. split; [| exact Hd].
           apply in_or_app. right. exact Hc'.
    + intros msgs stream Hin. apply in_app_or in Hin. destruct Hin as [Hin | Hin].
      * eapply Hstream1; eassumption.
      * eapply Hstream2; eassumption.
Qed.

(** ** What the augmenter does to the session and the trace *)

Lemma augmentation_effect (st st' : state W) (o : outcome unit) :
  augmentation ext st o st' ->
  session_set st' = session_set st /\
  (message_history st' = message_history st \/
   exists reviews,
     o = Returns tt /\
     message_history st' =
     (message_history st
        ++ [msg system ("MOVIE REVIEW CONTEXT:" ++ LF ++ LF ++ reviews)])%list) /\
  (exists evs,
      trace st' = (trace st ++ evs)%list /\
      (forall msgs stream, In (Completion msgs stream) evs ->
                           msgs = review_request (message_history st) /\ stream = false) /\
      (forall f args, In (Invoked f args) evs -> f = "get_reviews") /\
      (forall c, ~ In (Sent c) evs) /\
      length (filter is_invocation evs) <= 1).
Proof.
  intros H.
  destruct H as [Hh | e Hne Hjson | d e Hne Hjson Hf | d f Hne Hjson Hf Ht
                 | d f movie movie_id r e w Hne Hjson Hf Ht Hm Hi Hr Hesc
                 | d f movie movie_id r w Hne Hjson Hf Ht Hm Hi Hr Hesc].
  - split; [reflexivity |]. split; [left; reflexivity |].
    exists []. rewrite app_nil_r. repeat split; simpl; try contradiction; auto.
  - split; [reflexivity |]. split; [left; reflexivity |].
    eexists. split; [reflexivity |]. repeat split.
    + destruct H as [H | []]. injection H as <- _. reflexivity.
    + destruct H as [H | []]. injection H as _ <-. reflexivity.
    + intros f args [H | []]. discriminate.
    + intros c [H | []]. discriminate.
    + simpl. lia.
  - split; [reflexivity |]. split; [left; reflexivity |].
    eexists. split; [reflexivity |]. repeat split.
    + destruct H as [H | []]. injection H as <- _. reflexivity.
    + destruct H as [H | []]. injection H as _ <-. reflexivity.
    + intros g args [H | []]. discriminate.
    + intros c [H | []]. discriminate.
    + simpl. lia.
  - split; [reflexivity |]. split; [left; reflexivity |].
    eexists. split; [reflexivity |]. repeat split.
    + destruct H as [H | []]. injection H as <- _. reflexivity.
    + destruct H as [H | []]. injection H as _ <-. reflexivity.
    + intros g args [H | []]. discriminate.
    + intros c [H | []]. discriminate.
    + simpl. lia.
  - split; [reflexivity |]. split; [left; reflexivity |].
    eexists. split; [simpl; rewrite <- app_assoc; reflexivity |]. repeat split.
    + destruct H as [H | [H | []]]; try discriminate.
      injection H as <- _. reflexivity.
    + destruct H as [H | [H | []]]; try discriminate.
      injection H as _ <-. reflexivity.
    + intros g args [H | [H | []]]; try discriminate.
      injection H as <- _. reflexivity.
    + intros c [H | [H | []]]; discriminate.
    + simpl. lia.
  - split; [reflexivity |].
    split; [right; exists (review_text ext movie r); split; reflexivity |].
    eexists. split; [simpl; rewrite <- app_assoc; reflexivity |]. repeat split.
    + destruct H as [H | [H | []]]; try discriminate.
      injection H as <- _. reflexivity.
    + destruct H as [H | [H | []]]; try discriminate.
      injection H as _ <-. reflexivity.
    + intros g args [H | [H | []]]; try discriminate.
      injection H as <- _. reflexivity.
    + intros c [H | [H | []]]; discriminate.
    + simpl. lia.
Qed.

(** ** The turn, run *)

Lemma first_response_run (message_content : string) (st : state W) :
  first_response ext message_content st =
  match add_review_context_if_needed ext (appended (opened st) (msg user message_content))
  with
  | (Returns _, st2) => (Returns (reply ext st2), regenerated ext st2)
  | (Raises e, st2) => (Raises e, st2)
  | (OutOfFuel, st2) => (OutOfFuel, st2)
  end.
Proof.
  unfold first_response, bind at 1 2 3, user_session_get, append at 1.
  assert (Hopen : (if session_set st then (Returns tt, st)
                   else (@Returns unit tt, mk_state [] false (world st) (trace st)))
                  = (Returns tt, opened st))
    by (unfold opened; destruct (session_set st); reflexivity).
  rewrite Hopen.
  change (mk_state (message_history (opened st) ++ [msg user message_content])%list
                   (session_set (opened st)) (world (opened st)) (trace (opened st)))
    with (appended (opened st) (msg user message_content)).
  destruct (add_review_context_if_needed ext
              (appended (opened st) (msg user message_content))) as [[[] | e |] st2];
    try reflexivity.
  unfold generate_response, bind, get_history, emit, append, user_session_set, ret.
  rewrite external_run. unfold regenerated, reply, called. simpl.
  rewrite <- app_assoc. reflexivity.
Qed.

Lemma on_message_run (fuel : nat) (message_content : string) (st : state W) :
  on_message ext fuel message_content st =
  match first_response ext message_content st with
  | (Returns content, st3) => dispatch_loop ext fuel content st3
  | (Raises e, st3) => (Raises e, st3)
  | (OutOfFuel, st3) => (OutOfFuel, st3)
  end.
Proof. reflexivity. Qed.

Lemma trace_opened (st : state W) : trace (opened st) = trace st.
Proof. unfold opened. destruct (session_set st); reflexivity. Qed.

(** A turn, whatever way it ends: the history of a stored session grows by
    the user's message and what follows it; the trace grows by the events
    of the augmenter, then by those of the first response and of the loop,
    where every call is a call of the function selected by a text shown
    in this turn. *)
Lemma on_message_effect (fuel : nat) (message_content : string) (st : state W) :
  let st' := snd (on_message ext fuel message_content st) in
  (session_set st = true ->
   session_set st' = true /\
   exists added,
     message_history st' =
     (message_history st ++ msg user message_content :: added)%list) /\
  (exists evsA evsT,
      trace st' = (trace st ++ evsA ++ evsT)%list /\
      (forall msgs stream, In (Completion msgs stream) evsA ->
         msgs = review_request (message_history (opened st)
                                  ++ [msg user message_content]) /\ stream = false) /\
      (forall f args, In (Invoked f args) evsA -> f = "get_reviews") /\
      (forall c, ~ In (Sent c) evsA) /\
      length (filter is_invocation evsA) <= 1 /\
      (forall f args, In (Invoked f args) evsT ->
         f <> "confirm_ticket_purchase" /\
         exists c, In (Sent c) evsT /\ detected c = Some f) /\
      (forall msgs stream, In (Completion msgs stream) evsT -> stream = true)).
Proof.
  intros st'. subst st'. rewrite on_message_run, first_response_run.
  pose proof (add_review_context_augmentation
                (appended (opened st) (msg user message_content))) as Ha.
  destruct (add_review_context_if_needed ext
              (appended (opened st) (msg user message_content))) as [oa st2].
  simpl in Ha.
  destruct (augmentation_effect _ _ _ Ha)
    as [Hs2 [Hh2 [evsA [Ht2 [HcompA [HinvA [HsentA HcountA]]]]]]].
  assert (Hhist2 : session_set st = true ->
                   session_set st2 = true /\
                   exists added, message_history st2 =
                     (message_history st ++ msg user message_content :: added)%list).
  { intros Hset. unfold opened in Hs2, Hh2. rewrite Hset in Hs2, Hh2. simpl in Hs2, Hh2.
    split; [congruence |].
    destruct Hh2 as [Hh2 | [reviews [_ Hh2]]]; rewrite Hh2.
    - exists []. reflexivity.
    - eexists. rewrite <- app_assoc. reflexivity. }
  assert (Hstop : forall (o : outcome unit),
             (session_set st = true ->
              session_set (snd (o, st2)) = true /\
              exists added, message_history (snd (o, st2)) =
                (message_history st ++ msg user message_content :: added)%list) /\
             (exists evsA evsT,
                 trace (snd (o, st2)) = (trace st ++ evsA ++ evsT)%list /\
                 (forall msgs stream, In (Completion msgs stream) evsA ->
                    msgs = review_request (message_history (opened st)
                                             ++ [msg user message_content])
                    /\ stream = false) /\
                 (forall f args, In (Invoked f args) evsA -> f = "get_reviews") /\
                 (forall c, ~ In (Sent c) evsA) /\
                 length (filter is_invocation evsA) <= 1 /\
                 (forall f args, In (Invoked f args) evsT ->
                    f <> "confirm_ticket_purchase" /\
                    exists c, In (Sent c) evsT /\ detected c = Some f) /\
                 (forall msgs stream, In (Completion msgs stream) evsT -> stream = true))).
  { intros o. split; [exact Hhist2 |].
    exists evsA, []. rewrite app_nil_r. simpl snd. simpl in Ht2.
    rewrite trace_opened in Ht2.
    repeat split; auto; try contradiction; intros; eapply HcompA; eassumption. }
  destruct oa as [[] | e |].
  2: exact (Hstop (Raises e)).
  2: exact (Hstop OutOfFuel).
  clear Hstop.
  destruct (dispatch_loop_effect fuel (reply ext st2) (regenerated ext st2))
    as [[addedL HhL] [HsL [evsL [HtL [HinvL HstreamL]]]]].
  split.
  - intros Hset. destruct (Hhist2 Hset) as [_ [added Hadded]].
    split; [apply HsL; reflexivity |].
    rewrite HhL. simpl. rewrite Hadded.
    exists (added ++ msg assistant (reply ext st2) :: addedL)%list.
    rewrite <- !app_assoc. reflexivity.
  - exists evsA, ([Completion (message_history st2) true; Sent (reply ext st2)] ++ evsL)%list.
    split.
    { rewrite HtL. simpl trace at 1. rewrite Ht2. simpl trace.
      rewrite trace_opened. rewrite <- !app_assoc. reflexivity. }
    assert (Hho : message_history (appended (opened st) (msg user message_content))
                  = (message_history (opened st) ++ [msg user message_content])%list)
      by reflexivity.
    rewrite Hho in HcompA.
    repeat split; auto; try (intros; eapply HcompA; eassumption).
    + destruct H as [H | [H | H]]; try discriminate.
      destruct (HinvL f args H) as [Hne _]. exact Hne.
    + destruct H as [H | [H | H]]; try discriminate.
      destruct (HinvL f args H) as [_ [Hd | [c [Hc Hd]]]].
      * exists (reply ext st2). split; [right; left; reflexivity | exact Hd].
      * exists c. split; [right; right; exact Hc | exact Hd].
    + intros msgs stream [H | [H | H]]; try discriminate.
      * injection H as _ <-. reflexivity.
      * eapply HstreamL; eassumption.
Qed.

(** ** The extractor *)

Lemma non_literal_malformed (node : ast.expr) :
  non_literal node = true -> ast.literal_eval node = ast.malformed.
Proof.
  destruct node as [c | id | v attr | func args kws | v | op operand | l op r
                    | elts | elts | elts | keys values | kind elts gens | cls children];
    simpl; try discriminate; try reflexivity.
  destruct func; try reflexivity.
  intros H. apply negb_true_iff in H. unfold ast.literal_eval. simpl.
  rewrite H. reflexivity.
Qed.

Lemma collect_raises (rs : list (result pyval)) :
  existsb (fun r => match r with Raise _ => true | Ok _ => false end) rs = true ->
  exists e, ast.collect rs = Raise e.
Proof.
  induction rs as [| [v | e] rs IH]; simpl; intros H.
  - discriminate.
  - destruct (IH H) as [e He]. rewrite He. exists e. reflexivity.
  - exists e. reflexivity.
Qed.

Lemma collect_values (nodes : list ast.expr) :
  forall values,
    ast.collect (map ast.literal_eval nodes) = Ok values ->
    Forall2 (fun node v => ast.literal_eval node = Ok v) nodes values.
Proof.
  induction nodes as [| n nodes IH]; simpl; intros values H.
  - injection H as <-. constructor.
  - destruct (ast.literal_eval n) as [v | e] eqn:Hn; [| discriminate].
    destruct (ast.collect (map ast.literal_eval nodes)) as [vs | e]; [| discriminate].
    injection H as <-. constructor; [exact Hn | apply IH; reflexivity].
Qed.

Lemma parse_function_call_args_call (text : string) (func : ast.expr)
      (args : list ast.expr) (keywords : list (option string * ast.expr)) :
  ast_parse ext text = Ok (ast.Call func args keywords) ->
  parse_function_call_args ext text = ast.collect (map ast.literal_eval args).
Proof. intros H. unfold parse_function_call_args. rewrite H. reflexivity. Qed.

(** ** When the loop stops and when it does not *)

Lemma dispatch_loop_breaks (fuel : nat) (content : string) (st : state W) :
  detected content = None ->
  dispatch_loop ext (S fuel) content st = (Returns tt, st).
Proof.
  intros Hd. rewrite dispatch_loop_step.
  rewrite (cycle_dispatch_cycle content st st (Returns None) (cycle_break ext content st Hd)).
  reflexivity.
Qed.

Lemma dispatch_loop_raises (fuel : nat) (content : string) (st st' : state W)
      (e : exception) :
  cycle ext content st (Raises e) st' ->
  dispatch_loop ext (S fuel) content st = (Raises e, st').
Proof.
  intros Hc. rewrite dispatch_loop_step.
  rewrite (cycle_dispatch_cycle content st st' (Raises e) Hc). reflexivity.
Qed.

(** A model that puts [get_now_playing_movies()] in every reply, and a
    function that answers every time: the loop is still running after any
    number of times round, one call each time. *)
Lemma dispatch_loop_keeps_dispatching (fuel : nat) :
  (forall history w,
      detected (fst (completions_create ext history true w))
      = Some "get_now_playing_movies") ->
  (forall w, exists text w', get_now_playing_movies ext w = (Ok text, w')) ->
  forall (content : string) (st : state W),
    detected content = Some "get_now_playing_movies" ->
    fst (dispatch_loop ext fuel content st) = OutOfFuel /\
    calls_since st (snd (dispatch_loop ext fuel content st)) = fuel.
Proof.
  intros Hmodel Hanswers.
  induction fuel as [| fuel IH]; intros content st Hd.
  - split; [reflexivity |]. unfold calls_since.
    rewrite (events_since_app st _ []); [reflexivity |].
    simpl. rewrite app_nil_r. reflexivity.
  - rewrite dispatch_loop_step.
    destruct (Hanswers (world st)) as [text [w Hcall]].
    rewrite (cycle_dispatch_cycle content st _ _
               (cycle_now_playing ext content st text w Hd Hcall)).
    set (st1 := appended (called st (Invoked "get_now_playing_movies" []) w)
                         (msg system ("Current movies:" ++ LF ++ LF ++ " " ++ text))).
    destruct (IH (reply ext st1) (regenerated ext st1) (Hmodel _ _)) as [Hout Hcalls].
    split; [exact Hout |].
    destruct (dispatch_loop_effect fuel (reply ext st1) (regenerated ext st1))
      as [_ [_ [evs [Htrace _]]]].
    unfold calls_since in Hcalls |- *.
    rewrite (events_since_app _ _ evs Htrace) in Hcalls.
    rewrite (events_since_app st _
               ([Invoked "get_now_playing_movies" [];
                 Completion (message_history st1) true; Sent (reply ext st1)] ++ evs)).
    + simpl. rewrite Hcalls. reflexivity.
    + rewrite Htrace. simpl. rewrite <- !app_assoc. reflexivity.
Qed.

(** ** Substrings *)

Lemma prefix_trans (a b t : string) :
  String.prefix a b = true -> String.prefix b t = true -> String.prefix a t = true.
Proof.
  revert b t. induction a as [| x a IH]; intros b t Hab Hbt;
    [destruct t; reflexivity |].
  destruct b as [| y b]; [destruct x; discriminate |].
  destruct t as [| z t]; [discriminate |].
  simpl in *.
  destruct (ascii_dec x y) as [-> |]; [| discriminate].
  destruct (ascii_dec y z) as [-> |]; [| discriminate].
  exact (IH b t Hab Hbt).
Qed.

Lemma contains_unfold (needle hay : string) :
  contains needle hay =
  if String.prefix needle hay then true
  else match hay with
       | EmptyString => false
       | String _ rest => contains needle rest
       end.
Proof. destruct hay; reflexivity. Qed.

(** A text that contains [b] contains every prefix of [b]. *)
Lemma contains_prefix (a b t : string) :
  String.prefix a b = true -> contains b t = true -> contains a t = true.
Proof.
  intros Hab. induction t as [| c t IH]; intros H;
    rewrite contains_unfold in H |- *;
    destruct (String.prefix b _) eqn:Hb;
    try (rewrite (prefix_trans a b _ Hab Hb); reflexivity).
  - discriminate H.
  - destruct (String.prefix a (String c t)); [reflexivity | exact (IH H)].
Qed.

(** ** The operations of a turn on a stored session *)

Lemma turn_operation_effect (st st' : state W) :
  session_set st = true ->
  turn_operation ext st st' ->
  session_set st' = true /\
  exists added, message_history st' = (message_history st ++ added)%list.
Proof.
  intros Hset Hop.
  destruct Hop as [content | | | content | fuel content | fuel content].
  - split; [exact Hset |]. eexists. reflexivity.
  - destruct (augmentation_effect _ _ _ (add_review_context_augmentation st))
      as [Hs [[Hh | [reviews [_ Hh]]] _]].
    + split; [congruence |]. exists []. rewrite app_nil_r. exact Hh.
    + split; [congruence |]. eexists. exact Hh.
  - rewrite regenerate_run. split; [reflexivity |]. eexists. reflexivity.
  - destruct (cycle_effect _ _ _ _ (dispatch_cycle_cycle content st))
      as [Hh [Hs _]].
    split; [exact (Hs Hset) | exact Hh].
  - destruct (dispatch_loop_effect fuel content st) as [Hh [Hs _]].
    split; [exact (Hs Hset) | exact Hh].
  - destruct (on_message_effect fuel content st) as [Hh _].
    destruct (Hh Hset) as [Hs [added Hadded]].
    split; [exact Hs |]. eexists. exact Hadded.
Qed.

Lemma reachable_invariant (st : state W) :
  reachable ext st ->
  session_set st = true /\
  nth_error (message_history st) 0 = Some (msg system SYSTEM_PROMPT).
Proof.
  induction 1 as [w tr | st st' Hreach [Hset Hhead] Hop].
  - split; reflexivity.
  - destruct (turn_operation_effect st st' Hset Hop) as [Hset' [added Hadded]].
    split; [exact Hset' |]. rewrite Hadded.
    destruct (message_history st) as [| m rest]; [discriminate |]. exact Hhead.
Qed.

Lemma filter_none {A : Type} (p : A -> bool) (l : list A) :
  (forall x, In x l -> p x = false) -> filter p l = [].
Proof.
  induction l as [| x l IH]; intros H; [reflexivity |]. simpl.
  rewrite (H x (or_introl eq_refl)). apply IH. intros y Hy. apply H. right. exact Hy.
Qed.

Lemma filter_length_le {A : Type} (p q : A -> bool) (l : list A) :
  (forall x, p x = true -> q x = true) ->
  length (filter p l) <= length (filter q l).
Proof.
  intros Hpq. induction l as [| x l IH]; [reflexivity |]. simpl.
  destruct (p x) eqn:Hp.
  - rewrite (Hpq x Hp). simpl. lia.
  - destruct (q x); simpl; lia.
Qed.

(** The loop never calls [get_reviews]. *)
Lemma dispatch_loop_never_reviews (fuel : nat) (content : string) (st : state W)
      (args : list pyval) :
  ~ In (Invoked "get_reviews" args)
       (events_since st (snd (dispatch_loop ext fuel content st))).
Proof.
  intros Hin.
  destruct (dispatch_loop_effect fuel content st) as [_ [_ [evs [Htrace [Hinv _]]]]].
  rewrite (events_since_app st _ evs Htrace) in Hin.
  destruct (Hinv _ _ Hin) as [_ [Hd | [c [_ Hd]]]];
    destruct (detected_range _ _ Hd) as [H | [H | [H | H]]]; discriminate H.
Qed.

(** In a turn, [get_reviews] is called at most once. *)
Lemma on_message_reviews_once (fuel : nat) (message_content : string) (st : state W) :
  length (filter (invocation_of "get_reviews")
                 (events_since st (snd (on_message ext fuel message_content st)))) <= 1.
Proof.
  destruct (on_message_effect fuel message_content st)
    as [_ [evsA [evsT [Htrace [_ [_ [_ [Hcount [HinvT _]]]]]]]]].
  rewrite (events_since_app st _ (evsA ++ evsT) Htrace).
  rewrite filter_app, length_app.
  rewrite (filter_none (invocation_of "get_reviews") evsT).
  - simpl. rewrite Nat.add_0_r.
    eapply Nat.le_trans; [| exact Hcount].
    apply filter_length_le. intros [msgs stream | c | f args]; simpl; auto.
  - intros [msgs stream | c | f args] Hin; simpl; try reflexivity.
    destruct (HinvT _ _ Hin) as [_ [c [_ Hd]]].
    destruct (detected_range _ _ Hd) as [H | [H | [H | H]]]; subst f; reflexivity.
Qed.

End Properties.

(** * The claims *)

(** ** C1: the extractor evaluates literals only *)

(** C1, as stated, fails: an argument that is a nested call, [set()], is
    evaluated to the empty set instead of being rejected, and an identifier
    passed as a keyword argument is skipped without an error. *)
Lemma extractor_accepts_set_call_and_skips_keywords :
  ast_parse Scenario.plain "f(set())"
  = Ok (ast.Call (ast.Name "f") [ast.Call (ast.Name "set") [] []] []) /\
  parse_function_call_args Scenario.plain "f(set())" = Ok [VSet []] /\
  ast_parse Scenario.plain "get_showtimes(movie=m, location=l)"
  = Ok (ast.Call (ast.Name "get_showtimes") []
                 [(Some "movie", ast.Name "m"); (Some "location", ast.Name "l")]) /\
  parse_function_call_args Scenario.plain "get_showtimes(movie=m, location=l)" = Ok [].
Proof. vm_compute. repeat split. Qed.

(** C1, amended: on a text that parses as a call, the extractor returns what
    [ast.literal_eval] makes of the positional argument nodes, in order, and
    nothing else: the callee and the keyword arguments are not looked at.
    It fails whenever a positional argument is an identifier, an attribute
    access, a comprehension or a call other than [set()]; and every value it
    returns is the literal value of the argument at that position. *)
Theorem extractor_evaluates_positional_literals_only
        {W : Type} (ext : Externals W) (text : string) (func : ast.expr)
        (args : list ast.expr) (keywords : list (option string * ast.expr)) :
  ast_parse ext text = Ok (ast.Call func args keywords) ->
  parse_function_call_args ext text = ast.collect (map ast.literal_eval args) /\
  (existsb non_literal args = true ->
   exists e, parse_function_call_args ext text = Raise e) /\
  (forall values,
      parse_function_call_args ext text = Ok values ->
      Forall2 (fun node v => ast.literal_eval node = Ok v) args values).
Proof.
  intros Hparse.
  rewrite (parse_function_call_args_call ext text func args keywords Hparse).
  split; [reflexivity |]. split.
  - intros Hnon. apply collect_raises.
    rewrite existsb_exists in Hnon. destruct Hnon as [node [Hin Hnode]].
    rewrite existsb_exists. exists (ast.literal_eval node). split.
    + apply in_map. exact Hin.
    + rewrite (non_literal_malformed node Hnode). reflexivity.
  - apply collect_values.
Qed.

(** A call with a nested call and an attribute access as arguments is
    rejected. *)
Lemma extractor_rejects_nested_call_witness :
  exists e,
    parse_function_call_args Scenario.plain "get_showtimes(lookup(1), user.city)"
    = Raise e.
Proof.
  exact (proj1 (proj2 (extractor_evaluates_positional_literals_only
                         Scenario.plain "get_showtimes(lookup(1), user.city)"
                         (ast.Name "get_showtimes")
                         [ast.Call (ast.Name "lookup") [ast.Constant (ast.CInt 1)] [];
                          ast.Attribute (ast.Name "user") "city"]
                         [] eq_refl))
               eq_refl).
Defined.

(** ** C2: a failed argument step *)

(** C2, as stated, fails: when the model's text is a call of [get_showtimes]
    cut short, or one with a single argument, the turn does not end
    gracefully: a [SyntaxError], or a [ValueError], leaves [on_message]. *)
Lemma failed_argument_step_raises_out_of_turn :
  raised_class (fst (on_message Scenario.cut_short 3 "When is Dune on?" Scenario.fresh))
  = Some SyntaxError /\
  raised_class (fst (on_message Scenario.one_argument 3 "When is Dune on?" Scenario.fresh))
  = Some ValueError.
Proof. vm_compute. split; reflexivity. Qed.

(** C2, amended: when the argument step of the [get_showtimes] or
    [buy_ticket] branch fails (the text does not parse, is no call, has an
    argument that is no literal, or does not have two, respectively three,
    values), no movie function is called and nothing is appended: the state
    is left as it was, with the assistant's text already shown and
    appended; and the exception leaves the loop and [on_message]. *)
Theorem failed_argument_step_leaves_handler
        {W : Type} (ext : Externals W) (fuel : nat) (content name : string)
        (e : exception) (st : state W) :
  detected content = Some name ->
  name = "get_showtimes" \/ name = "buy_ticket" ->
  extract_arguments ext name content = Raise e ->
  dispatch_cycle ext content st = (Raises e, st) /\
  dispatch_loop ext (S fuel) content st = (Raises e, st) /\
  (forall message_content st0,
      first_response ext message_content st0 = (Returns content, st) ->
      on_message ext (S fuel) message_content st0 = (Raises e, st)).
Proof.
  intros Hd Hname Hfail.
  assert (Hc : cycle ext content st (Raises e) st).
  { unfold extract_arguments in Hfail.
    destruct (parse_function_call_args ext content) as [args |] eqn:Hparse.
    - destruct Hname as [-> | ->]; simpl in Hfail.
      + destruct (unpack2 args) as [p | e'] eqn:Hshape; [discriminate |].
        injection Hfail as <-.
        exact (cycle_showtimes_shape ext content st args e' Hd Hparse Hshape).
      + destruct (unpack3 args) as [p | e'] eqn:Hshape; [discriminate |].
        injection Hfail as <-.
        exact (cycle_buy_shape ext content st args e' Hd Hparse Hshape).
    - injection Hfail as <-. destruct Hname as [-> | ->].
      + exact (cycle_showtimes_unparsed ext content st _ Hd Hparse).
      + exact (cycle_buy_unparsed ext content st _ Hd Hparse). }
  split; [exact (cycle_dispatch_cycle ext content st st _ Hc) |].
  split; [exact (dispatch_loop_raises ext fuel content st st e Hc) |].
  intros message_content st0 Hfirst.
  rewrite on_message_run, Hfirst.
  exact (dispatch_loop_raises ext fuel content st st e Hc).
Qed.

(** A call cut short: the syntax error leaves the loop, the state is as it
    was. *)
Lemma failed_argument_step_witness :
  dispatch_cycle Scenario.cut_short "get_showtimes(" Scenario.fresh
  = (Raises (Exc SyntaxError "invalid syntax"), Scenario.fresh) /\
  dispatch_loop Scenario.cut_short 3 "get_showtimes(" Scenario.fresh
  = (Raises (Exc SyntaxError "invalid syntax"), Scenario.fresh) /\
  (forall message_content st0,
      first_response Scenario.cut_short message_content st0
      = (Returns "get_showtimes(", Scenario.fresh) ->
      on_message Scenario.cut_short 3 message_content st0
      = (Raises (Exc SyntaxError "invalid syntax"), Scenario.fresh)).
Proof.
  exact (failed_argument_step_leaves_handler
           Scenario.cut_short 2 "get_showtimes(" "get_showtimes"
           (Exc SyntaxError "invalid syntax") Scenario.fresh
           eq_refl (or_introl eq_refl) eq_refl).
Defined.

(** ** C3: a movie function that raises *)

(** The two branches that wrap their call in [try]/[except Exception] do
    what C3 says for an exception of class [Exception], once the line before
    the call is printed: the failure becomes the text of a system message and
    another response is generated. *)
Lemma caught_failure_is_reported
      {W : Type} (ext : Externals W) (content : string) (st : state W)
      (e : exception) (w : W) :
  is_Exception e = true ->
  (forall movie location,
      detected content = Some "get_showtimes" ->
      parse_function_call_args ext content = Ok [movie; location] ->
      print_fstring ext (showtimes_line movie location) = Ok tt ->
      get_showtimes ext movie location (world st) = (Raise e, w) ->
      let st1 := appended (called st (Invoked "get_showtimes" [movie; location]) w)
                          (msg system ("An error occurred while fetching showtimes: "
                                       ++ exc_str e)) in
      dispatch_cycle ext content st = (Returns (Some (reply ext st1)), regenerated ext st1)) /\
  (forall theater movie showtime,
      detected content = Some "buy_ticket" ->
      parse_function_call_args ext content = Ok [theater; movie; showtime] ->
      print_fstring ext (ticket_line theater movie showtime) = Ok tt ->
      buy_ticket ext theater movie showtime (world st) = (Raise e, w) ->
      let st1 := appended (called st (Invoked "buy_ticket" [theater; movie; showtime]) w)
                          (msg system ("An error occurred while purchasing the ticket: "
                                       ++ exc_str e)) in
      dispatch_cycle ext content st = (Returns (Some (reply ext st1)), regenerated ext st1)).
Proof.
  intros He.
  assert (Hesc : escaping (Raise e : result string) = None)
    by (simpl; rewrite He; reflexivity).
  split.
  - intros movie location Hd Hparse Hprint Hcall st1.
    exact (cycle_dispatch_cycle ext content st _ _
             (cycle_showtimes ext content st movie location (Raise e) w
                              Hd Hparse Hprint Hcall Hesc)).
  - intros theater movie showtime Hd Hparse Hprint Hcall st1.
    exact (cycle_dispatch_cycle ext content st _ _
             (cycle_buy ext content st theater movie showtime (Raise e) w
                        Hd Hparse Hprint Hcall Hesc)).
Qed.

(** With [get_showtimes] out of reach the turn goes on and ends normally,
    the failure in a system message. *)
Example showtimes_failure_is_reported :
  on_message Scenario.showtimes_offline 3 "When is Dune on in Paris?" Scenario.fresh
  = (Returns tt,
     mk_state
       [msg system SYSTEM_PROMPT;
        msg user "When is Dune on in Paris?";
        msg assistant Scenario.showtimes_text;
        msg system "An error occurred while fetching showtimes: connection refused";
        msg assistant "I could not get the showtimes."]
       true tt
       (trace (snd (on_message Scenario.showtimes_offline 3 "When is Dune on in Paris?"
                               Scenario.fresh)))).
Proof. vm_compute. reflexivity. Qed.

(** C3 on the code: a failure of [get_now_playing_movies] is not caught.
    The model asks for the movies now playing, the function raises, and the
    exception leaves [on_message]: no system message reports the failure and
    no further response is generated. *)
Theorem now_playing_failure_aborts_turn :
  on_message Scenario.looping_offline 3 "What is playing now?" Scenario.fresh
  = (Raises (Exc (OtherException "ConnectionError") "connection refused"),
     mk_state
       [msg system SYSTEM_PROMPT;
        msg user "What is playing now?";
        msg assistant "get_now_playing_movies()"]
       true tt
       [Completion (review_request [msg system SYSTEM_PROMPT;
                                    msg user "What is playing now?"]) false;
        Completion [msg system SYSTEM_PROMPT; msg user "What is playing now?"] true;
        Sent "get_now_playing_movies()";
        Invoked "get_now_playing_movies" []]).
Proof. vm_compute. reflexivity. Qed.

(** ** C4: the number of times round the loop *)

(** C4, as stated, fails: no maximum is configured.  With a model that
    re-emits [get_now_playing_movies()], five times round the loop is still
    running, five calls made, and no number bounds the calls of a turn. *)
Lemma repeated_call_text_is_never_cut_off :
  fst (on_message Scenario.looping 5 "What is playing now?" Scenario.fresh) = OutOfFuel /\
  calls_since Scenario.fresh
              (snd (on_message Scenario.looping 5 "What is playing now?" Scenario.fresh))
  = 5 /\
  ~ (exists max_cycles,
        forall fuel,
          calls_since Scenario.fresh
            (snd (dispatch_loop Scenario.looping fuel Scenario.now_playing_text
                                Scenario.fresh))
          <= max_cycles).
Proof.
  split; [vm_compute; reflexivity |]. split; [vm_compute; reflexivity |].
  intros [max_cycles Hmax].
  specialize (Hmax (S max_cycles)).
  destruct (dispatch_loop_keeps_dispatching Scenario.looping (S max_cycles)
              (fun _ _ => eq_refl)
              (fun w => ex_intro _ "Dune, Wicked" (ex_intro _ w eq_refl))
              Scenario.now_playing_text Scenario.fresh eq_refl) as [_ Hcalls].
  rewrite Hcalls in Hmax. lia.
Qed.

(** C4, amended: the loop has no limit of its own.  When every reply of the
    model contains [get_now_playing_movies()] and the function answers, the
    loop is still running after any number [fuel] of times round, with
    [fuel] calls made and no diagnostic; it stops, silently and leaving the
    session as it is, at the first text that selects no branch. *)
Theorem loop_runs_as_long_as_calls_are_detected
        {W : Type} (ext : Externals W) (fuel : nat) (content : string) (st : state W) :
  (forall history w,
      detected (fst (completions_create ext history true w))
      = Some "get_now_playing_movies") ->
  (forall w, exists text w', get_now_playing_movies ext w = (Ok text, w')) ->
  detected content = Some "get_now_playing_movies" ->
  (fst (dispatch_loop ext fuel content st) = OutOfFuel /\
   calls_since st (snd (dispatch_loop ext fuel content st)) = fuel) /\
  (forall content' st',
      detected content' = None ->
      dispatch_loop ext (S fuel) content' st' = (Returns tt, st')).
Proof.
  intros Hmodel Hanswers Hd. split.
  - exact (dispatch_loop_keeps_dispatching ext fuel Hmodel Hanswers content st Hd).
  - intros content' st' Hnone. exact (dispatch_loop_breaks ext fuel content' st' Hnone).
Qed.

(** The model that repeats its call, five times round. *)
Lemma loop_runs_as_long_as_calls_are_detected_witness :
  (fst (dispatch_loop Scenario.looping 5 Scenario.now_playing_text Scenario.fresh)
   = OutOfFuel /\
   calls_since Scenario.fresh
     (snd (dispatch_loop Scenario.looping 5 Scenario.now_playing_text Scenario.fresh))
   = 5) /\
  (forall content' st',
      detected content' = None ->
      dispatch_loop Scenario.looping 6 content' st' = (Returns tt, st')).
Proof.
  exact (loop_runs_as_long_as_calls_are_detected
           Scenario.looping 5 Scenario.now_playing_text Scenario.fresh
           (fun _ _ => eq_refl)
           (fun w => ex_intro _ "Dune, Wicked" (ex_intro _ w eq_refl))
           eq_refl).
Defined.

(** ** C5: what the loop extracts from a call text *)

(** C5, as stated, fails on two valid call texts.  [get_reviews(123)] names
    a function the prompt offers, with its one argument, and contains
    [get_reviews(]: one time round the loop takes nothing out of it and
    calls nothing, it is the [break].  A [buy_ticket] call whose first
    argument is the text [get_showtimes(] has three literal arguments and
    contains [buy_ticket(]: it is taken by the [get_showtimes] branch, which
    cannot unpack its three values, and [buy_ticket] is not called. *)
Lemma valid_call_texts_are_not_extracted :
  ast_parse Scenario.plain "get_reviews(123)"
  = Ok (ast.Call (ast.Name "get_reviews") [ast.Constant (ast.CInt 123)] []) /\
  contains "get_reviews(" "get_reviews(123)" = true /\
  dispatch_cycle Scenario.plain "get_reviews(123)" Scenario.fresh
  = (Returns None, Scenario.fresh) /\
  ast_parse Scenario.plain Scenario.shadowed_buy_text
  = Ok (ast.Call (ast.Name "buy_ticket")
                 [ast.Constant (ast.CStr "get_showtimes("); ast.Constant (ast.CStr "B");
                  ast.Constant (ast.CStr "7pm")] []) /\
  contains "buy_ticket(" Scenario.shadowed_buy_text = true /\
  raised_class (fst (dispatch_cycle Scenario.plain Scenario.shadowed_buy_text Scenario.fresh))
  = Some ValueError /\
  snd (dispatch_cycle Scenario.plain Scenario.shadowed_buy_text Scenario.fresh)
  = Scenario.fresh.
Proof. vm_compute. repeat split. Qed.

(** A third one: [get_now_playing_movies( )], with a blank between the
    parentheses, contains [get_now_playing_movies(] and is the [break]
    too. *)
Example spaced_call_is_not_detected :
  ast_parse Scenario.plain "get_now_playing_movies( )"
  = Ok (ast.Call (ast.Name "get_now_playing_movies") [] []) /\
  contains "get_now_playing_movies(" "get_now_playing_movies( )" = true /\
  dispatch_cycle Scenario.plain "get_now_playing_movies( )" Scenario.fresh
  = (Returns None, Scenario.fresh).
Proof. vm_compute. repeat split. Qed.

(** One time round the loop on a text that selects the branch of [name]
    and out of which the extractor takes as many values as that branch
    unpacks: once the line of the branch is written, the function is called
    with these values, before anything else happens. *)
Lemma selected_function_is_called
      {W : Type} (ext : Externals W) (content name : string)
      (values : list pyval) (st : state W) :
  detected content = Some name ->
  extracted_arity name = Some (length values) ->
  parse_function_call_args ext content = Ok values ->
  printing ext name values = Ok tt ->
  exists evs,
    events_since st (snd (dispatch_cycle ext content st)) = Invoked name values :: evs.
Proof.
  intros Hd Harity Hargs Hwritten.
  pose proof (dispatch_cycle_cycle ext content st) as Hc.
  destruct (dispatch_cycle ext content st) as [o st']. simpl in Hc |- *.
  destruct Hc as
      [text w Hd' Hcall | e w Hd' Hcall | e Hd' Hp | args' e Hd' Hp Hshape
       | movie location e Hd' Hp Hprint
       | movie location r e w Hd' Hp Hprint Hcall Hesc
       | movie location r w Hd' Hp Hprint Hcall Hesc | Hd' | e Hd' Hp
       | args' e Hd' Hp Hshape
       | theater movie showtime e Hd' Hp Hprint
       | theater movie showtime r e w Hd' Hp Hprint Hcall Hesc
       | theater movie showtime r w Hd' Hp Hprint Hcall Hesc | Hd'];
    rewrite Hd in Hd'; try discriminate Hd'; injection Hd' as ->;
    try (vm_compute in Harity; discriminate Harity);
    try (rewrite Hargs in Hp; try discriminate Hp; injection Hp as Hp).
  - (* get_now_playing_movies answered *)
    injection Harity as Hlen. destruct values; [| discriminate Hlen].
    eexists. apply events_since_app. simpl. rewrite <- app_assoc. reflexivity.
  - (* get_now_playing_movies raised *)
    injection Harity as Hlen. destruct values; [| discriminate Hlen].
    eexists. apply events_since_app. reflexivity.
  - (* get_showtimes, wrong shape *)
    subst args'. injection Harity as Hlen.
    destruct values as [| a [| b [| c l]]]; simpl in Hlen, Hshape; discriminate.
  - (* get_showtimes, the line not written *)
    subst values. unfold printing in Hwritten. simpl in Hwritten.
    rewrite Hprint in Hwritten. discriminate Hwritten.
  - (* get_showtimes raised past the handler *)
    subst values. eexists. apply events_since_app. reflexivity.
  - (* get_showtimes *)
    subst values.
    eexists. apply events_since_app. simpl. rewrite <- app_assoc. reflexivity.
  - (* buy_ticket, wrong shape *)
    subst args'. injection Harity as Hlen.
    destruct values as [| a [| b [| c [| d l]]]]; simpl in Hlen, Hshape; discriminate.
  - (* buy_ticket, the line not written *)
    subst values. unfold printing in Hwritten. simpl in Hwritten.
    rewrite Hprint in Hwritten. discriminate Hwritten.
  - (* buy_ticket raised past the handler *)
    subst values. eexists. apply events_since_app. reflexivity.
  - (* buy_ticket *)
    subst values.
    eexists. apply events_since_app. simpl. rewrite <- app_assoc. reflexivity.
Qed.

(** C5, amended: for a text that parses as a call of [get_now_playing_movies],
    [get_showtimes] or [buy_ticket] with literal arguments, none, two or
    three of them, and that selects the branch of that same function (it is
    the first in the order of the [if] chain whose substring the text
    contains), the extractor returns the ordered literal values and, when
    the line that the branch prints with these values before its call is
    written, the loop calls that function with exactly these values. *)
Theorem dispatch_calls_selected_function_with_literal_values
        {W : Type} (ext : Externals W) (content name : string)
        (args : list ast.expr) (values : list pyval) (st : state W) :
  ast_parse ext content = Ok (ast.Call (ast.Name name) args []) ->
  ast.collect (map ast.literal_eval args) = Ok values ->
  detected content = Some name ->
  extracted_arity name = Some (length values) ->
  parse_function_call_args ext content = Ok values /\
  (printing ext name values = Ok tt ->
   exists evs,
     events_since st (snd (dispatch_cycle ext content st)) = Invoked name values :: evs).
Proof.
  intros Hparse Hvalues Hd Harity.
  assert (Hargs : parse_function_call_args ext content = Ok values)
    by (rewrite (parse_function_call_args_call ext content _ _ _ Hparse); exact Hvalues).
  split; [exact Hargs |]. intros Hwritten.
  exact (selected_function_is_called ext content name values st Hd Harity Hargs Hwritten).
Qed.

(** The call of the specification's example: [buy_ticket] is called with
    the three texts. *)
Lemma buy_ticket_call_extracted_witness :
  parse_function_call_args Scenario.plain Scenario.buy_text
  = Ok [VStr "A"; VStr "B"; VStr "7pm"] /\
  exists evs,
    events_since Scenario.fresh
      (snd (dispatch_cycle
              Scenario.plain
              Scenario.buy_text Scenario.fresh))
    = Invoked "buy_ticket" [VStr "A"; VStr "B"; VStr "7pm"] :: evs.
Proof.
  destruct (dispatch_calls_selected_function_with_literal_values
              Scenario.plain
              Scenario.buy_text "buy_ticket"
              [ast.Constant (ast.CStr "A"); ast.Constant (ast.CStr "B");
               ast.Constant (ast.CStr "7pm")]
              [VStr "A"; VStr "B"; VStr "7pm"] Scenario.fresh
              eq_refl eq_refl eq_refl eq_refl) as [Hvalues Hcalled].
  split; [exact Hvalues | exact (Hcalled eq_refl)].
Defined.

(** ** C6: confirming is not buying *)

(** C6: in a turn where no text shown by the model contains [buy_ticket(],
    [buy_ticket] is never called; and one time round the loop on a text that
    selects the confirmation branch appends the acknowledgment as a system
    message, generates the next response and appends it, calling no movie
    function at all. *)
Theorem confirmation_never_buys
        {W : Type} (ext : Externals W) (fuel : nat) (message_content : string)
        (st : state W) :
  (forall c, In (Sent c) (events_since st (snd (on_message ext fuel message_content st))) ->
             contains "buy_ticket(" c = false) ->
  (forall args,
      ~ In (Invoked "buy_ticket" args)
           (events_since st (snd (on_message ext fuel message_content st)))) /\
  (forall content st1,
      detected content = Some "confirm_ticket_purchase" ->
      let st2 := appended st1 (msg system ("The user has confirmed their purchase for "
                                           ++ content)) in
      dispatch_cycle ext content st1 = (Returns (Some (reply ext st2)), regenerated ext st2) /\
      events_since st1 (regenerated ext st2)
      = [Completion (message_history st2) true; Sent (reply ext st2)]).
Proof.
  intros Hshown. split.
  - intros args Hin.
    destruct (on_message_effect ext fuel message_content st)
      as [_ [evsA [evsT [Htrace [_ [HinvA [HsentA [_ [HinvT _]]]]]]]]].
    rewrite (events_since_app st _ (evsA ++ evsT) Htrace) in Hin, Hshown.
    apply in_app_or in Hin. destruct Hin as [Hin | Hin].
    + specialize (HinvA _ _ Hin). discriminate HinvA.
    + destruct (HinvT _ _ Hin) as [_ [c [Hc Hd]]].
      assert (Hfalse : contains "buy_ticket(" c = false)
        by (apply Hshown; apply in_or_app; right; exact Hc).
      rewrite (detected_buy_ticket c Hd) in Hfalse. discriminate Hfalse.
  - intros content st1 Hd st2. split.
    + exact (cycle_dispatch_cycle ext content st1 _ _ (cycle_confirm ext content st1 Hd)).
    + apply events_since_app. reflexivity.
Qed.

(** A turn in which the model confirms a purchase and then asks. *)
Lemma confirmation_never_buys_witness :
  (forall args,
      ~ In (Invoked "buy_ticket" args)
           (events_since Scenario.fresh
              (snd (on_message Scenario.confirming 3 "Yes, two tickets please."
                               Scenario.fresh)))) /\
  (forall content st1,
      detected content = Some "confirm_ticket_purchase" ->
      let st2 := appended st1 (msg system ("The user has confirmed their purchase for "
                                           ++ content)) in
      dispatch_cycle Scenario.confirming content st1
      = (Returns (Some (reply Scenario.confirming st2)), regenerated Scenario.confirming st2) /\
      events_since st1 (regenerated Scenario.confirming st2)
      = [Completion (message_history st2) true; Sent (reply Scenario.confirming st2)]).
Proof.
  apply (confirmation_never_buys Scenario.confirming 3 "Yes, two tickets please."
                                 Scenario.fresh).
  intros c Hin. vm_compute in Hin.
  destruct Hin as [H | [H | [H | [H | [H | []]]]]]; try discriminate H;
    injection H as <-; vm_compute; reflexivity.
Defined.

(** The turn of that witness: the purchase is acknowledged, nothing is
    bought. *)
Example confirmation_turn :
  on_message Scenario.confirming 3 "Yes, two tickets please." Scenario.fresh
  = (Returns tt,
     mk_state
       [msg system SYSTEM_PROMPT;
        msg user "Yes, two tickets please.";
        msg assistant Scenario.confirm_text;
        msg system ("The user has confirmed their purchase for " ++ Scenario.confirm_text);
        msg assistant "Shall I buy the ticket?"]
       true tt
       (trace (snd (on_message Scenario.confirming 3 "Yes, two tickets please."
                               Scenario.fresh)))) /\
  calls_since Scenario.fresh
    (snd (on_message Scenario.confirming 3 "Yes, two tickets please." Scenario.fresh)) = 0.
Proof. vm_compute. split; reflexivity. Qed.

(** ** C7: a decision that is not JSON *)

(** C7, as stated, fails: when the decision of the model is prose, the
    [JSONDecodeError] leaves [on_message]; the augmentation is not skipped
    and the turn not carried on: no response is generated. *)
Lemma malformed_decision_aborts_turn :
  raised_class (fst (on_message Scenario.undecided 3 "Is Dune any good?" Scenario.fresh))
  = Some JSONDecodeError /\
  events_since Scenario.fresh
    (snd (on_message Scenario.undecided 3 "Is Dune any good?" Scenario.fresh))
  = [Completion (review_request [msg system SYSTEM_PROMPT; msg user "Is Dune any good?"])
                false].
Proof. vm_compute. split; reflexivity. Qed.

(** C7, amended: when the decision fails to parse, the error leaves the
    augmenter and [on_message] with it, before any response is generated.
    The session is not corrupted: it holds what it held plus the user's
    message, and no augmentation message; the one event of the turn is the
    decision request. *)
Theorem malformed_decision_propagates
        {W : Type} (ext : Externals W) (fuel : nat) (message_content : string)
        (e : exception) (st : state W) :
  session_set st = true ->
  json_loads ext (decision ext (appended st (msg user message_content))) = Raise e ->
  on_message ext fuel message_content st
  = (Raises e, asked ext (appended st (msg user message_content))) /\
  message_history (asked ext (appended st (msg user message_content)))
  = (message_history st ++ [msg user message_content])%list /\
  events_since st (asked ext (appended st (msg user message_content)))
  = [Completion (review_request (message_history st ++ [msg user message_content])) false].
Proof.
  intros Hset Hjson.
  split; [| split; [reflexivity | apply events_since_app; reflexivity]].
  rewrite on_message_run, first_response_run.
  assert (Hopen : opened st = st) by (unfold opened; rewrite Hset; reflexivity).
  rewrite Hopen.
  pose proof (add_review_context_augmentation ext (appended st (msg user message_content)))
    as Ha.
  destruct (add_review_context_if_needed ext (appended st (msg user message_content)))
    as [o st2].
  simpl in Ha.
  destruct Ha as [Hh | e' Hne Hjson' | d e' Hne Hjson' Hf | d f Hne Hjson' Hf Ht
                  | d f movie movie_id r e' w Hne Hjson' Hf Ht Hm Hi Hr Hesc
                  | d f movie movie_id r w Hne Hjson' Hf Ht Hm Hi Hr Hesc].
  - simpl in Hh. destruct (message_history st); discriminate Hh.
  - rewrite Hjson in Hjson'. injection Hjson' as <-. reflexivity.
  - rewrite Hjson in Hjson'. discriminate Hjson'.
  - rewrite Hjson in Hjson'. discriminate Hjson'.
  - rewrite Hjson in Hjson'. discriminate Hjson'.
  - rewrite Hjson in Hjson'. discriminate Hjson'.
Qed.

(** A decision in prose, on a fresh session. *)
Lemma malformed_decision_propagates_witness :
  on_message Scenario.undecided 3 "Is Dune any good?" Scenario.fresh
  = (Raises (Exc JSONDecodeError "Expecting value"),
     asked Scenario.undecided (appended Scenario.fresh (msg user "Is Dune any good?"))) /\
  message_history
    (asked Scenario.undecided (appended Scenario.fresh (msg user "Is Dune any good?")))
  = (message_history Scenario.fresh ++ [msg user "Is Dune any good?"])%list /\
  events_since Scenario.fresh
    (asked Scenario.undecided (appended Scenario.fresh (msg user "Is Dune any good?")))
  = [Completion (review_request (message_history Scenario.fresh
                                   ++ [msg user "Is Dune any good?"])) false].
Proof.
  exact (malformed_decision_propagates
           Scenario.undecided 3 "Is Dune any good?"
           (Exc JSONDecodeError "Expecting value") Scenario.fresh eq_refl eq_refl).
Defined.

(** ** C8: the session is only appended to *)

(** C8: every state of a session created at chat start, after any sequence
    of operations of turns (the user's message, the augmenter, a generated
    response, one time round the loop, the whole loop, a whole turn, however
    they end), is stored, has the system prompt as its first message, and
    each further operation leaves its history as it is and appends to it. *)
Theorem session_is_append_only
        {W : Type} (ext : Externals W) (st : state W) :
  reachable ext st ->
  (session_set st = true /\
   nth_error (message_history st) 0 = Some (msg system SYSTEM_PROMPT)) /\
  (forall st',
      turn_operation ext st st' ->
      exists added, message_history st' = (message_history st ++ added)%list).
Proof.
  intros Hreach.
  pose proof (reachable_invariant ext st Hreach) as [Hset Hhead].
  split; [split; assumption |].
  intros st' Hop.
  exact (proj2 (turn_operation_effect ext st st' Hset Hop)).
Qed.

(** The session after a first turn with reviews fetched. *)
Lemma session_is_append_only_witness :
  (session_set (snd (on_message Scenario.reviewing 3 "Is Dune any good?" Scenario.fresh))
   = true /\
   nth_error
     (message_history
        (snd (on_message Scenario.reviewing 3 "Is Dune any good?" Scenario.fresh))) 0
   = Some (msg system SYSTEM_PROMPT)) /\
  (forall st',
      turn_operation Scenario.reviewing
        (snd (on_message Scenario.reviewing 3 "Is Dune any good?" Scenario.fresh)) st' ->
      exists added,
        message_history st'
        = (message_history
             (snd (on_message Scenario.reviewing 3 "Is Dune any good?" Scenario.fresh))
             ++ added)%list).
Proof.
  apply (session_is_append_only Scenario.reviewing).
  apply (reach_step Scenario.reviewing Scenario.fresh).
  - apply reach_start.
  - apply op_turn.
Defined.

(** ** C9: the augmenter and the system message *)

(** The turn of a model that asks for reviews: the request of the decision
    carries the review prompt in place of the system prompt, the session
    keeps the system prompt and gets one review message. *)
Example review_turn :
  on_message Scenario.reviewing 3 "Is Dune any good?" Scenario.fresh
  = (Returns tt,
     mk_state
       [msg system SYSTEM_PROMPT;
        msg user "Is Dune any good?";
        msg system ("MOVIE REVIEW CONTEXT:" ++ LF ++ LF ++ "Reviews for Dune:" ++ LF ++ LF
                    ++ "A triumph.");
        msg assistant "Critics call it a triumph."]
       true tt
       [Completion [msg system review_prompt; msg user "Is Dune any good?";
                    msg system review_prompt] false;
        Invoked "get_reviews" [VInt 693134];
        Completion
          [msg system SYSTEM_PROMPT;
           msg user "Is Dune any good?";
           msg system ("MOVIE REVIEW CONTEXT:" ++ LF ++ LF ++ "Reviews for Dune:" ++ LF ++ LF
                       ++ "A triumph.")] true;
        Sent "Critics call it a triumph."]).
Proof. vm_compute. reflexivity. Qed.

(** C9: the only request the augmenter sends to the model is the copy of the
    history with the review prompt at index 0 (and once more at the end);
    the first message of the session is the same after the step as before;
    the history is left as it is or gets one system message that starts
    with [MOVIE REVIEW CONTEXT:]; and a turn calls [get_reviews] at most
    once. *)
Theorem augmenter_leaves_system_message
        {W : Type} (ext : Externals W) (st : state W) :
  (forall msgs stream,
      In (Completion msgs stream)
         (events_since st (snd (add_review_context_if_needed ext st))) ->
      msgs = (msg system review_prompt :: tl (message_history st)
                  ++ [msg system review_prompt])%list
      /\ stream = false) /\
  nth_error (message_history (snd (add_review_context_if_needed ext st))) 0
  = nth_error (message_history st) 0 /\
  (message_history (snd (add_review_context_if_needed ext st)) = message_history st \/
   exists reviews,
     message_history (snd (add_review_context_if_needed ext st))
     = (message_history st
          ++ [msg system ("MOVIE REVIEW CONTEXT:" ++ LF ++ LF ++ reviews)])%list) /\
  (forall fuel message_content,
      length (filter (invocation_of "get_reviews")
                     (events_since st (snd (on_message ext fuel message_content st))))
      <= 1).
Proof.
  pose proof (add_review_context_augmentation ext st) as Ha.
  destruct (add_review_context_if_needed ext st) as [o st']. simpl in Ha |- *.
  destruct (augmentation_effect ext _ _ _ Ha) as [_ [Hh [evs [Htrace [Hcomp _]]]]].
  split; [| split; [| split]].
  - intros msgs stream Hin.
    rewrite (events_since_app st _ evs Htrace) in Hin.
    exact (Hcomp msgs stream Hin).
  - destruct Ha as [Hn | e' Hne | d e' Hne | d f Hne | d f movie movie_id r e' w Hne
                    | d f movie movie_id r w Hne];
      try reflexivity.
    simpl. destruct (message_history st); [contradiction | reflexivity].
  - destruct Hh as [Hh | [reviews [_ Hh]]]; [left; exact Hh | right].
    exists reviews. exact Hh.
  - intros fuel message_content. apply on_message_reviews_once.
Qed.

(** ** C10: the loop and [get_reviews] *)

(** C10: on a text that contains [get_reviews(] and the call substring of no
    other function, the loop ends the turn at once, calling nothing and
    leaving the session as it is; and the loop never calls [get_reviews],
    whatever the text: in a turn, the calls of [get_reviews] are among the
    events of the augmenter, before any text is shown. *)
Theorem loop_never_calls_get_reviews
        {W : Type} (ext : Externals W) (fuel : nat) (content : string) (st : state W) :
  contains "get_reviews(" content = true ->
  contains "get_now_playing_movies(" content = false ->
  contains "get_showtimes(" content = false ->
  contains "confirm_ticket_purchase(" content = false ->
  contains "buy_ticket(" content = false ->
  dispatch_loop ext (S fuel) content st = (Returns tt, st) /\
  (forall fuel' content' st' args,
      ~ In (Invoked "get_reviews" args)
           (events_since st' (snd (dispatch_loop ext fuel' content' st')))) /\
  (forall fuel' message_content st',
      exists evsA evsT,
        events_since st' (snd (on_message ext fuel' message_content st'))
        = (evsA ++ evsT)%list /\
        (forall c, ~ In (Sent c) evsA) /\
        (forall args, ~ In (Invoked "get_reviews" args) evsT)).
Proof.
  intros _ Hnp Hst Hcf Hbt.
  split; [| split].
  - apply dispatch_loop_breaks. unfold detected.
    destruct (contains "get_now_playing_movies()" content) eqn:Hnp'.
    + rewrite (contains_prefix "get_now_playing_movies(" "get_now_playing_movies()"
                               content eq_refl Hnp') in Hnp.
      discriminate Hnp.
    + rewrite Hst, Hcf, Hbt. reflexivity.
  - intros fuel' content' st' args. apply dispatch_loop_never_reviews.
  - intros fuel' message_content st'.
    destruct (on_message_effect ext fuel' message_content st')
      as [_ [evsA [evsT [Htrace [_ [_ [HsentA [_ [HinvT _]]]]]]]]].
    exists evsA, evsT.
    split; [exact (events_since_app st' _ (evsA ++ evsT) Htrace) |].
    split; [exact HsentA |].
    intros args Hin. destruct (HinvT _ _ Hin) as [_ [c [_ Hd]]].
    destruct (detected_range _ _ Hd) as [H | [H | [H | H]]]; discriminate H.
Qed.

(** The text [get_reviews(123)] ends the turn at once. *)
Lemma loop_never_calls_get_reviews_witness :
  dispatch_loop Scenario.plain 3 "get_reviews(123)" Scenario.fresh
  = (Returns tt, Scenario.fresh) /\
  (forall fuel' content' st' args,
      ~ In (Invoked "get_reviews" args)
           (events_since st' (snd (dispatch_loop Scenario.plain fuel' content' st')))) /\
  (forall fuel' message_content st',
      exists evsA evsT,
        events_since st' (snd (on_message Scenario.plain fuel' message_content st'))
        = (evsA ++ evsT)%list /\
        (forall c, ~ In (Sent c) evsA) /\
        (forall args, ~ In (Invoked "get_reviews" args) evsT)).
Proof.
  exact (loop_never_calls_get_reviews Scenario.plain 2 "get_reviews(123)" Scenario.fresh
                                      eq_refl eq_refl eq_refl eq_refl eq_refl).
Defined.

(** * Further properties of the code *)

(** ** The extractor, at every depth *)

Section DisplayInduction.

Variable P : ast.expr -> Prop.
Hypothesis P_tuple : forall elts, Forall P elts -> P (ast.Tuple elts).
Hypothesis P_list : forall elts, Forall P elts -> P (ast.List elts).
Hypothesis P_set : forall elts, Forall P elts -> P (ast.Set_ elts).
Hypothesis P_dict : forall keys values,
    Forall (fun k => match k with Some k => P k | None => True end) keys ->
    Forall P values -> P (ast.Dict keys values).
Hypothesis P_other : forall node, is_display node = false -> P node.

(** Induction on a node through the elements of its displays. *)
Fixpoint display_induction (node : ast.expr) : P node :=
  let fix all (l : list ast.expr) : Forall P l :=
    match l with
    | [] => Forall_nil P
    | x :: rest => Forall_cons x (display_induction x) (all rest)
    end in
  let fix all_keys (l : list (option ast.expr))
    : Forall (fun k => match k with Some k => P k | None => True end) l :=
    match l with
    | [] => Forall_nil _
    | Some k :: rest => Forall_cons (Some k) (display_induction k) (all_keys rest)
    | None :: rest => Forall_cons None I (all_keys rest)
    end in
  match node with
  | ast.Tuple elts => P_tuple elts (all elts)
  | ast.List elts => P_list elts (all elts)
  | ast.Set_ elts => P_set elts (all elts)
  | ast.Dict keys values => P_dict keys values (all_keys keys) (all values)
  | ast.Constant c => P_other (ast.Constant c) eq_refl
  | ast.Name id => P_other (ast.Name id) eq_refl
  | ast.Attribute v a => P_other (ast.Attribute v a) eq_refl
  | ast.Call f a k => P_other (ast.Call f a k) eq_refl
  | ast.Starred v => P_other (ast.Starred v) eq_refl
  | ast.UnaryOp o v => P_other (ast.UnaryOp o v) eq_refl
  | ast.BinOp l o r => P_other (ast.BinOp l o r) eq_refl
  | ast.Comp k e g => P_other (ast.Comp k e g) eq_refl
  | ast.OtherExpr c ch => P_other (ast.OtherExpr c ch) eq_refl
  end.

End DisplayInduction.

Lemma collect_all_ok (nodes : list ast.expr) (f : ast.expr -> result pyval) :
  forall vs, ast.collect (map f nodes) = Ok vs ->
             Forall (fun n => exists v, f n = Ok v) nodes.
Proof.
  induction nodes as [| n nodes IH]; simpl; intros vs H; [constructor |].
  destruct (f n) as [v | e] eqn:Hn; [| discriminate].
  destruct (ast.collect (map f nodes)) as [vs' | e] eqn:Hrest; [| discriminate].
  constructor; [exists v; exact Hn | exact (IH vs' eq_refl)].
Qed.

Lemma collect_set_all_ok (nodes : list ast.expr) (f : ast.expr -> result pyval) :
  forall vs, ast.collect_set (map f nodes) = Ok vs ->
             Forall (fun n => exists v, f n = Ok v) nodes.
Proof.
  induction nodes as [| n nodes IH]; simpl; intros vs H; [constructor |].
  destruct (f n) as [v | e] eqn:Hn; [| discriminate].
  destruct (hashable v); [| discriminate].
  destruct (ast.collect_set (map f nodes)) as [vs' | e] eqn:Hrest; [| discriminate].
  constructor; [exists v; exact Hn | exact (IH vs' eq_refl)].
Qed.

Lemma collect_items_all_ok (f : option ast.expr -> result pyval)
      (g : ast.expr -> result pyval) :
  forall (keys : list (option ast.expr)) (values : list ast.expr) items,
    length keys = length values ->
    ast.collect_items (map f keys) (map g values) = Ok items ->
    Forall (fun k => exists v, f k = Ok v) keys /\
    Forall (fun n => exists v, g n = Ok v) values.
Proof.
  induction keys as [| k keys IH]; intros [| n values] items Hlen H;
    try discriminate Hlen; [split; constructor |].
  simpl in H.
  destruct (f k) as [kv | e] eqn:Hk; [| discriminate].
  destruct (g n) as [v | e] eqn:Hn; [| discriminate].
  destruct (hashable kv); [| discriminate].
  destruct (ast.collect_items (map f keys) (map g values)) as [items' | e] eqn:Hrest;
    [| discriminate].
  injection Hlen as Hlen.
  destruct (IH values items' Hlen Hrest) as [Hks Hvs].
  split; constructor; eauto.
Qed.

Lemma forallb_of_Forall {A : Type} (p : A -> bool) (l : list A) :
  Forall (fun x => p x = true) l -> forallb p l = true.
Proof. intros H. apply forallb_forall. apply Forall_forall. exact H. Qed.

(** Whatever [literal_eval] evaluates has the shape of a literal at every
    depth. *)
Lemma literal_eval_shape (node : ast.expr) :
  forall v, ast.literal_eval node = Ok v -> literal_shape node = true.
Proof.
  unfold ast.literal_eval.
  induction node using display_induction; intros v Hv.
  - (* Tuple *)
    simpl in Hv |- *.
    destruct (ast.collect (map ast.convert elts)) as [vs |] eqn:Hc; [| discriminate].
    apply forallb_of_Forall.
    pose proof (collect_all_ok elts ast.convert vs Hc) as Hall.
    rewrite Forall_forall in *. intros x Hx.
    destruct (Hall x Hx) as [w Hw]. exact (H x Hx w Hw).
  - (* List *)
    simpl in Hv |- *.
    destruct (ast.collect (map ast.convert elts)) as [vs |] eqn:Hc; [| discriminate].
    apply forallb_of_Forall.
    pose proof (collect_all_ok elts ast.convert vs Hc) as Hall.
    rewrite Forall_forall in *. intros x Hx.
    destruct (Hall x Hx) as [w Hw]. exact (H x Hx w Hw).
  - (* Set *)
    simpl in Hv |- *.
    destruct (ast.collect_set (map ast.convert elts)) as [vs |] eqn:Hc; [| discriminate].
    apply forallb_of_Forall.
    pose proof (collect_set_all_ok elts ast.convert vs Hc) as Hall.
    rewrite Forall_forall in *. intros x Hx.
    destruct (Hall x Hx) as [w Hw]. exact (H x Hx w Hw).
  - (* Dict *)
    simpl in Hv |- *.
    destruct (Nat.eqb (length keys) (length values)) eqn:Hlen; [| discriminate].
    apply Nat.eqb_eq in Hlen.
    match type of Hv with
    | match ast.collect_items (map ?f keys) _ with _ => _ end = _ =>
        destruct (ast.collect_items (map f keys) (map ast.convert values))
          as [items |] eqn:Hc; [| discriminate];
        destruct (collect_items_all_ok f ast.convert keys values items Hlen Hc)
          as [Hks Hvs]
    end.
    apply andb_true_intro. split; apply forallb_of_Forall.
    + rewrite Forall_forall in *. intros [k |] Hk.
      * destruct (Hks _ Hk) as [w Hw]. exact (H _ Hk w Hw).
      * destruct (Hks _ Hk) as [w Hw]. discriminate Hw.
    + rewrite Forall_forall in *. intros x Hx.
      destruct (Hvs x Hx) as [w Hw]. exact (H0 x Hx w Hw).
  - (* the other nodes *)
    destruct node as [c | id | v' attr | func args kws | v' | op operand | l op r
                      | elts | elts | elts | keys values | kind elts gens | cls children];
      try discriminate H; simpl in Hv |- *; try discriminate Hv; try reflexivity.
    + destruct func; try discriminate Hv.
      destruct (String.eqb id "set" && ast.is_empty args && ast.is_empty kws);
        [reflexivity | discriminate Hv].
    + (* a sign *)
      destruct op; try discriminate Hv;
        destruct operand as [[] | | | | | | | | | | | |]; try discriminate Hv; reflexivity.
    + (* a sum or a difference *)
      destruct op; try discriminate Hv;
        unfold ast.convert_sum in Hv;
        destruct l as [[] | | | | | [] [[] | | | | | | | | | | | |] | | | | | | |];
        try discriminate Hv;
        destruct r as [[] | | | | | | | | | | | |]; try discriminate Hv; reflexivity.
Qed.

(** X1: a text that parses as a call is rejected by the extractor whenever
    one of its positional arguments holds, at any depth (inside a list,
    tuple, set or dict display too), something that is no literal: an
    identifier, an attribute access, a call other than [set()], a
    comprehension, or an operator other than the two that [literal_eval]
    reads, a [+] or [-] sign on a number constant and the sum or difference
    of a signed real number and a complex constant. *)
Theorem extractor_rejects_non_literals_at_any_depth
        {W : Type} (ext : Externals W) (text : string) (func : ast.expr)
        (args : list ast.expr) (keywords : list (option string * ast.expr)) :
  ast_parse ext text = Ok (ast.Call func args keywords) ->
  existsb (fun node => negb (literal_shape node)) args = true ->
  exists e, parse_function_call_args ext text = Raise e.
Proof.
  intros Hparse Hbad.
  rewrite (parse_function_call_args_call ext text func args keywords Hparse).
  destruct (ast.collect (map ast.literal_eval args)) as [values | e] eqn:Hc;
    [| exists e; reflexivity].
  exfalso.
  apply existsb_exists in Hbad. destruct Hbad as [node [Hin Hnode]].
  pose proof (collect_all_ok args ast.literal_eval values Hc) as Hall.
  rewrite Forall_forall in Hall. destruct (Hall node Hin) as [v Hv].
  rewrite (literal_eval_shape node v Hv) in Hnode. discriminate Hnode.
Qed.

(** An attribute access inside a list display. *)
Lemma extractor_rejects_nested_name_witness :
  exists e, parse_function_call_args Scenario.plain Edge.nested_name_text = Raise e.
Proof.
  exact (extractor_rejects_non_literals_at_any_depth
           Scenario.plain Edge.nested_name_text (ast.Name "get_showtimes")
           [ast.List [ast.Attribute (ast.Name "user") "city"];
            ast.Constant (ast.CStr "Paris")] [] eq_refl eq_refl).
Defined.

(** The operators that are read: [1+2j] is the complex number of parts [1.0]
    and [2.0], [-1.5] the float [-1.5]; [1+2] is rejected. *)
Example signed_and_complex_numbers_are_literals :
  ast.literal_eval
    (ast.BinOp (ast.Constant (ast.CInt 1)) ast.Add
               (ast.Constant (ast.CComplex (S754_zero false) (Edge.float 2 0))))
  = Ok (VComplex (Edge.float 1 0) (Edge.float 2 0)) /\
  ast.literal_eval (ast.UnaryOp ast.USub (ast.Constant (ast.CFloat (Edge.float 3 (-1)))))
  = Ok (VFloat (SFopp (Edge.float 3 (-1)))) /\
  literal_shape (ast.BinOp (ast.Constant (ast.CInt 1)) ast.Add
                           (ast.Constant (ast.CInt 2))) = false /\
  ast.literal_eval (ast.BinOp (ast.Constant (ast.CInt 1)) ast.Add
                              (ast.Constant (ast.CInt 2)))
  = ast.malformed.
Proof. vm_compute. repeat split. Qed.

Lemma collect_constants (cs : list ast.constant) :
  ast.collect (map ast.literal_eval (map ast.Constant cs)) = Ok (map ast.value_of cs).
Proof.
  induction cs as [| c cs IH]; [reflexivity |].
  simpl. simpl in IH. rewrite IH. reflexivity.
Qed.

(** X2: on a text that parses as a call whose positional arguments are all
    constants, the extractor returns the values of these constants, as many
    and in the same order, whatever the callee and the keyword arguments. *)
Theorem extractor_returns_constants_in_order
        {W : Type} (ext : Externals W) (text : string) (func : ast.expr)
        (cs : list ast.constant) (keywords : list (option string * ast.expr)) :
  ast_parse ext text = Ok (ast.Call func (map ast.Constant cs) keywords) ->
  parse_function_call_args ext text = Ok (map ast.value_of cs).
Proof.
  intros Hparse.
  rewrite (parse_function_call_args_call ext text func _ keywords Hparse).
  apply collect_constants.
Qed.

(** A call of another function with a keyword argument: the two positional
    texts come back. *)
Lemma extractor_returns_constants_witness :
  parse_function_call_args Scenario.plain Edge.other_callee_text
  = Ok [VStr "Dune"; VStr "Paris"].
Proof.
  exact (extractor_returns_constants_in_order
           Scenario.plain Edge.other_callee_text (ast.Name "my_get_showtimes")
           [ast.CStr "Dune"; ast.CStr "Paris"]
           [(Some "when", ast.Constant (ast.CStr "now"))] eq_refl).
Defined.

(** ** One time round the loop *)

(** X3: the branch is chosen by the substring alone: a text that selects the
    [get_showtimes] (or [buy_ticket]) branch and parses as a call of any
    function at all, with any keyword arguments, makes the loop call
    [get_showtimes] (or [buy_ticket]) with the two (or three) positional
    values, once the line that the branch prints with these values is
    written; the callee of the parsed call is never compared with the
    branch. *)
Theorem dispatch_ignores_callee_and_keywords
        {W : Type} (ext : Externals W) (content name : string) (func : ast.expr)
        (args : list ast.expr) (keywords : list (option string * ast.expr))
        (values : list pyval) (st : state W) :
  detected content = Some name ->
  (name = "get_showtimes" /\ length values = 2) \/
  (name = "buy_ticket" /\ length values = 3) ->
  ast_parse ext content = Ok (ast.Call func args keywords) ->
  ast.collect (map ast.literal_eval args) = Ok values ->
  printing ext name values = Ok tt ->
  exists evs,
    events_since st (snd (dispatch_cycle ext content st)) = Invoked name values :: evs.
Proof.
  intros Hd Hname Hparse Hvalues Hwritten.
  assert (Hargs : parse_function_call_args ext content = Ok values)
    by (rewrite (parse_function_call_args_call ext content _ _ _ Hparse); exact Hvalues).
  apply (selected_function_is_called ext content name values st Hd); try assumption.
  destruct Hname as [[-> ->] | [-> ->]]; reflexivity.
Qed.

(** [my_get_showtimes("Dune", "Paris", when="now")] is served by
    [get_showtimes]. *)
Lemma dispatch_ignores_callee_witness :
  exists evs,
    events_since Scenario.fresh
      (snd (dispatch_cycle Scenario.plain Edge.other_callee_text Scenario.fresh))
    = Invoked "get_showtimes" [VStr "Dune"; VStr "Paris"] :: evs.
Proof.
  exact (dispatch_ignores_callee_and_keywords
           Scenario.plain Edge.other_callee_text "get_showtimes"
           (ast.Name "my_get_showtimes")
           [ast.Constant (ast.CStr "Dune"); ast.Constant (ast.CStr "Paris")]
           [(Some "when", ast.Constant (ast.CStr "now"))]
           [VStr "Dune"; VStr "Paris"] Scenario.fresh
           eq_refl (or_introl (conj eq_refl eq_refl)) eq_refl eq_refl eq_refl).
Defined.

(** X4: a text that contains [confirm_ticket_purchase(] buys nothing in that
    time round the loop, even when it contains a [buy_ticket(] call as
    well: the confirmation branch, or an earlier one, takes it. *)
Theorem confirmation_text_does_not_buy
        {W : Type} (ext : Externals W) (content : string) (st : state W) :
  contains "confirm_ticket_purchase(" content = true ->
  forall args,
    ~ In (Invoked "buy_ticket" args)
         (events_since st (snd (dispatch_cycle ext content st))).
Proof.
  intros Hcf args Hin.
  destruct (cycle_effect ext _ _ _ _ (dispatch_cycle_cycle ext content st))
    as [_ [_ [evs [Htrace [Hinv _]]]]].
  rewrite (events_since_app st _ evs Htrace) in Hin.
  destruct (Hinv _ _ Hin) as [Hd _].
  unfold detected in Hd.
  destruct (contains "get_now_playing_movies()" content); [discriminate Hd |].
  destruct (contains "get_showtimes(" content); [discriminate Hd |].
  rewrite Hcf in Hd. discriminate Hd.
Qed.

(** A confirmation followed by a purchase in one text. *)
Lemma confirmation_text_does_not_buy_witness :
  contains "confirm_ticket_purchase(" Edge.confirm_and_buy_text = true /\
  forall args,
    ~ In (Invoked "buy_ticket" args)
         (events_since Scenario.fresh
            (snd (dispatch_cycle Scenario.plain Edge.confirm_and_buy_text Scenario.fresh))).
Proof.
  split; [reflexivity |].
  exact (confirmation_text_does_not_buy Scenario.plain Edge.confirm_and_buy_text
                                        Scenario.fresh eq_refl).
Defined.

(** X5: one time round the loop calls at most one movie function, and it
    either appends exactly two messages, a system message and then the
    assistant's next text, and goes round again on that text, or it appends
    nothing and is the [break] or the way out of an exception. *)
Theorem cycle_appends_two_messages_or_none
        {W : Type} (ext : Externals W) (content : string) (st : state W) :
  calls_since st (snd (dispatch_cycle ext content st)) <= 1 /\
  ((exists text next,
       fst (dispatch_cycle ext content st) = Returns (Some next) /\
       message_history (snd (dispatch_cycle ext content st))
       = (message_history st ++ [msg system text; msg assistant next])%list) \/
   ((fst (dispatch_cycle ext content st) = Returns None \/
     exists e, fst (dispatch_cycle ext content st) = Raises e) /\
    message_history (snd (dispatch_cycle ext content st)) = message_history st)).
Proof.
  pose proof (dispatch_cycle_cycle ext content st) as Hc.
  split.
  - destruct (cycle_effect ext _ _ _ _ Hc) as [_ [_ [evs [Htrace [_ [_ [_ Hcount]]]]]]].
    unfold calls_since. rewrite (events_since_app st _ evs Htrace). exact Hcount.
  - destruct (dispatch_cycle ext content st) as [o st']. simpl in Hc |- *.
    destruct Hc as
      [text w Hd Hcall | e w Hd Hcall | e Hd Hp | args' e Hd Hp Hshape
       | movie location e Hd Hp Hprint
       | movie location r e w Hd Hp Hprint Hcall Hesc
       | movie location r w Hd Hp Hprint Hcall Hesc | Hd | e Hd Hp
       | args' e Hd Hp Hshape
       | theater movie showtime e Hd Hp Hprint
       | theater movie showtime r e w Hd Hp Hprint Hcall Hesc
       | theater movie showtime r w Hd Hp Hprint Hcall Hesc | Hd].
    all: try (right; split; [right; eexists; reflexivity | reflexivity]).
    all: try (right; split; [left; reflexivity | reflexivity]).
    all: left; eexists; eexists; split; [reflexivity |];
      simpl; rewrite <- app_assoc; reflexivity.
Qed.

(** ** The whole turn *)

Lemma cycle_next {W : Type} (ext : Externals W) (content : string) (st st1 : state W)
      (o : outcome (option string)) :
  cycle ext content st o st1 ->
  forall next, o = Returns (Some next) ->
               exists st0, st1 = regenerated ext st0 /\ next = reply ext st0.
Proof.
  intros Hc. destruct Hc; intros next Ho; try discriminate Ho;
    injection Ho as <-; eexists; split; reflexivity.
Qed.

Lemma cycle_none {W : Type} (ext : Externals W) (content : string) (st st1 : state W)
      (o : outcome (option string)) :
  cycle ext content st o st1 ->
  o = Returns None -> st1 = st /\ detected content = None.
Proof.
  intros Hc. destruct Hc; intros Ho; try discriminate Ho. split; [reflexivity | assumption].
Qed.

Lemma dispatch_loop_final (fuel : nat) {W : Type} (ext : Externals W) :
  forall (content : string) (st st' : state W),
    dispatch_loop ext fuel content st = (Returns tt, st') ->
    (exists older, message_history st = (older ++ [msg assistant content])%list) ->
    (exists before, trace st = (before ++ [Sent content])%list) ->
    exists final older before,
      message_history st' = (older ++ [msg assistant final])%list /\
      trace st' = (before ++ [Sent final])%list /\
      detected final = None.
Proof.
  induction fuel as [| fuel IH]; intros content st st' Hrun Hlast Hsent.
  - discriminate Hrun.
  - rewrite dispatch_loop_step in Hrun.
    pose proof (dispatch_cycle_cycle ext content st) as Hc.
    destruct (dispatch_cycle ext content st) as [o st1]. simpl in Hc.
    destruct o as [[next |] | e |]; try discriminate Hrun.
    + (* round again, from a regenerated state *)
      destruct (cycle_next ext content st st1 _ Hc next eq_refl) as [st0 [-> ->]].
      apply (IH _ _ st' Hrun).
      * eexists. reflexivity.
      * exists (trace st0 ++ [Completion (message_history st0) true])%list.
        simpl. rewrite <- app_assoc. reflexivity.
    + (* the break *)
      injection Hrun as <-.
      destruct (cycle_none ext content st st1 _ Hc eq_refl) as [-> Hd].
      destruct Hlast as [older Hlast]. destruct Hsent as [before Hsent].
      exists content, older, before. auto.
Qed.

(** X6: a turn that returns leaves, as the last message of the session, an
    assistant message whose text selects no branch of the loop; this text
    is also the last one shown to the user. *)
Theorem returned_turn_ends_with_plain_answer
        {W : Type} (ext : Externals W) (fuel : nat) (message_content : string)
        (st : state W) :
  fst (on_message ext fuel message_content st) = Returns tt ->
  exists final older before,
    message_history (snd (on_message ext fuel message_content st))
    = (older ++ [msg assistant final])%list /\
    trace (snd (on_message ext fuel message_content st)) = (before ++ [Sent final])%list /\
    detected final = None.
Proof.
  intros Hret.
  destruct (on_message ext fuel message_content st) as [o st'] eqn:Hrun.
  simpl in Hret |- *. subst o.
  rewrite on_message_run, first_response_run in Hrun.
  destruct (add_review_context_if_needed ext
              (appended (opened st) (msg user message_content))) as [[[] | e |] st2];
    try discriminate Hrun.
  apply (dispatch_loop_final fuel ext (reply ext st2) (regenerated ext st2) st' Hrun).
  - eexists. reflexivity.
  - exists (trace st2 ++ [Completion (message_history st2) true])%list.
    simpl. rewrite <- app_assoc. reflexivity.
Qed.

(** The turn with a confirmation ends on the model's question. *)
Lemma returned_turn_ends_with_plain_answer_witness :
  exists final older before,
    message_history
      (snd (on_message Scenario.confirming 3 "Yes, two tickets please." Scenario.fresh))
    = (older ++ [msg assistant final])%list /\
    trace (snd (on_message Scenario.confirming 3 "Yes, two tickets please." Scenario.fresh))
    = (before ++ [Sent final])%list /\
    detected final = None.
Proof.
  exact (returned_turn_ends_with_plain_answer
           Scenario.confirming 3 "Yes, two tickets please." Scenario.fresh eq_refl).
Defined.

Lemma assistant_texts_app (a b : list Message) :
  assistant_texts (a ++ b) = (assistant_texts a ++ assistant_texts b)%list.
Proof. unfold assistant_texts. rewrite filter_app, map_app. reflexivity. Qed.

Lemma sent_texts_app (a b : list event) :
  sent_texts (a ++ b) = (sent_texts a ++ sent_texts b)%list.
Proof.
  induction a as [| [msgs stream | c | f args] a IH]; simpl; try exact IH.
  - reflexivity.
  - rewrite IH. reflexivity.
Qed.

Lemma sent_texts_none (evs : list event) :
  (forall c, ~ In (Sent c) evs) -> sent_texts evs = [].
Proof.
  induction evs as [| [msgs stream | c | f args] evs IH]; intros H; simpl.
  - reflexivity.
  - apply IH. intros c Hc. exact (H c (or_intror Hc)).
  - exfalso. exact (H c (or_introl eq_refl)).
  - apply IH. intros c Hc. exact (H c (or_intror Hc)).
Qed.

(** The assistant messages appended are the texts shown: one time round the
    loop, the loop, the augmenter. *)
Lemma cycle_texts {W : Type} (ext : Externals W) (content : string) (st st' : state W)
      (o : outcome (option string)) :
  cycle ext content st o st' ->
  exists evs,
    trace st' = (trace st ++ evs)%list /\
    assistant_texts (message_history st')
    = (assistant_texts (message_history st) ++ sent_texts evs)%list.
Proof.
  intros Hc.
  destruct Hc as
      [text w Hd Hcall | e w Hd Hcall | e Hd Hp | args' e Hd Hp Hshape
       | movie location e Hd Hp Hprint
       | movie location r e w Hd Hp Hprint Hcall Hesc
       | movie location r w Hd Hp Hprint Hcall Hesc | Hd | e Hd Hp
       | args' e Hd Hp Hshape
       | theater movie showtime e Hd Hp Hprint
       | theater movie showtime r e w Hd Hp Hprint Hcall Hesc
       | theater movie showtime r w Hd Hp Hprint Hcall Hesc | Hd].
  all: try (exists []; rewrite !app_nil_r; split; reflexivity).
  all: try (eexists; split; [simpl; rewrite <- app_assoc; reflexivity |];
            simpl message_history; rewrite !assistant_texts_app; simpl;
            rewrite app_nil_r; reflexivity).
  all: try (eexists; split; [reflexivity |]; simpl; rewrite app_nil_r; reflexivity).
  eexists. split; [reflexivity |].
  simpl message_history. rewrite !assistant_texts_app. simpl.
  rewrite app_nil_r. reflexivity.
Qed.

Lemma dispatch_loop_texts (fuel : nat) {W : Type} (ext : Externals W) :
  forall (content : string) (st : state W),
  exists evs,
    trace (snd (dispatch_loop ext fuel content st)) = (trace st ++ evs)%list /\
    assistant_texts (message_history (snd (dispatch_loop ext fuel content st)))
    = (assistant_texts (message_history st) ++ sent_texts evs)%list.
Proof.
  induction fuel as [| fuel IH]; intros content st.
  - exists []. simpl. rewrite !app_nil_r. split; reflexivity.
  - rewrite dispatch_loop_step.
    pose proof (dispatch_cycle_cycle ext content st) as Hc.
    destruct (dispatch_cycle ext content st) as [o st1]. simpl in Hc.
    destruct (cycle_texts ext content st st1 o Hc) as [evs1 [Ht1 Ha1]].
    destruct o as [[next |] | e |]; simpl; try (exists evs1; split; assumption).
    destruct (IH next st1) as [evs2 [Ht2 Ha2]].
    exists (evs1 ++ evs2)%list. split.
    + rewrite Ht2, Ht1, app_assoc. reflexivity.
    + rewrite Ha2, Ha1, sent_texts_app, app_assoc. reflexivity.
Qed.

(** X7: what is stored is what was shown.  Whatever way a turn ends, the
    assistant messages of the session are those it had, followed by the
    texts shown to the user during the turn, in the order they were shown. *)
Theorem assistant_messages_are_texts_shown
        {W : Type} (ext : Externals W) (fuel : nat) (message_content : string)
        (st : state W) :
  assistant_texts (message_history (snd (on_message ext fuel message_content st)))
  = (assistant_texts (message_history (opened st))
       ++ sent_texts (events_since st (snd (on_message ext fuel message_content st))))%list.
Proof.
  rewrite on_message_run, first_response_run.
  pose proof (add_review_context_augmentation ext
                (appended (opened st) (msg user message_content))) as Ha.
  destruct (add_review_context_if_needed ext
              (appended (opened st) (msg user message_content))) as [oa st2].
  simpl in Ha.
  destruct (augmentation_effect ext _ _ _ Ha)
    as [_ [Hh2 [evsA [Ht2 [_ [_ [HsentA _]]]]]]].
  simpl in Ht2. rewrite trace_opened in Ht2.
  assert (Hat2 : assistant_texts (message_history st2)
                 = assistant_texts (message_history (opened st))).
  { destruct Hh2 as [Hh2 | [reviews [_ Hh2]]]; rewrite Hh2; simpl message_history;
      rewrite !assistant_texts_app; simpl; rewrite ?app_nil_r; reflexivity. }
  assert (Hstop : forall o : outcome unit,
             assistant_texts (message_history (snd (o, st2)))
             = (assistant_texts (message_history (opened st))
                  ++ sent_texts (events_since st (snd (o, st2))))%list).
  { intros o. simpl. rewrite (events_since_app st st2 evsA Ht2).
    rewrite (sent_texts_none evsA HsentA), app_nil_r. exact Hat2. }
  destruct oa as [[] | e |]; [| exact (Hstop (Raises e)) | exact (Hstop OutOfFuel)].
  destruct (dispatch_loop_texts fuel ext (reply ext st2) (regenerated ext st2))
    as [evsL [HtL HaL]].
  rewrite HaL. simpl message_history. rewrite assistant_texts_app, Hat2. simpl.
  rewrite (events_since_app st _
             (evsA ++ [Completion (message_history st2) true; Sent (reply ext st2)] ++ evsL)).
  - rewrite !sent_texts_app, (sent_texts_none evsA HsentA). simpl.
    rewrite <- app_assoc. reflexivity.
  - rewrite HtL. simpl. rewrite Ht2, <- !app_assoc. reflexivity.
Qed.

(** ** The augmenter *)

(** [augmentation] describes nothing but the function. *)
Lemma augmentation_run {W : Type} (ext : Externals W) (st st' : state W)
      (o : outcome unit) :
  augmentation ext st o st' -> add_review_context_if_needed ext st = (o, st').
Proof.
  intros Ha.
  unfold add_review_context_if_needed, bind, get_history, lift.
  destruct Ha as [Hh | e Hne Hjson | d e Hne Hjson Hf | d f Hne Hjson Hf Ht
                  | d f movie movie_id r e w Hne Hjson Hf Ht Hm Hi Hr Hesc
                  | d f movie movie_id r w Hne Hjson Hf Ht Hm Hi Hr Hesc].
  { rewrite Hh. reflexivity. }
  all: destruct (message_history st) as [| m rest] eqn:Hh; [contradiction |].
  all: assert (Hreq : ((msg system review_prompt :: rest)
                         ++ [msg system review_prompt])%list
                      = review_request (message_history st))
      by (unfold review_request; rewrite Hh; reflexivity).
  all: rewrite Hreq, external_run.
  all: change (fst (completions_create ext (review_request (message_history st)) false
                                       (world st)))
         with (decision ext st).
  all: change (called st (Completion (review_request (message_history st)) false)
                      (snd (completions_create ext (review_request (message_history st))
                                               false (world st))))
         with (asked ext st).
  all: rewrite Hjson; try rewrite Hf; try rewrite Ht; try reflexivity.
  all: rewrite Hm, Hi, external_run, Hr; unfold append, except_Exception;
    destruct r as [text | e0]; try discriminate Hesc; try reflexivity;
    cbn [fst snd]; simpl in Hesc; destruct (is_Exception e0); try discriminate Hesc;
    try (injection Hesc as ->); reflexivity.
Qed.

(** X8: a failure of [get_reviews] that [except Exception] catches does not
    leave the augmenter.  When the decision asks for reviews and
    [get_reviews] raises an exception of class [Exception], the augmenter
    returns, and the session gets the system message
    [MOVIE REVIEW CONTEXT:], two line feeds,
    [An error occurred while fetching reviews: ] and the text of the
    exception.  An exception of another kind ([KeyboardInterrupt],
    [SystemExit]) leaves the augmenter after the call, nothing appended. *)
Theorem reviews_failure_is_reported
        {W : Type} (ext : Externals W) (st : state W) (d fetch_reviews movie_id : pyval)
        (e : exception) (w : W) :
  message_history st <> [] ->
  json_loads ext (decision ext st) = Ok d ->
  dict_get d "fetch_reviews" (VBool false) = Ok fetch_reviews ->
  truthy fetch_reviews = true ->
  dict_get d "id" VNone = Ok movie_id ->
  get_reviews ext movie_id (world (asked ext st)) = (Raise e, w) ->
  add_review_context_if_needed ext st
  = if is_Exception e
    then (Returns tt,
          appended (called (asked ext st) (Invoked "get_reviews" [movie_id]) w)
                   (msg system ("MOVIE REVIEW CONTEXT:" ++ LF ++ LF
                                ++ "An error occurred while fetching reviews: "
                                ++ exc_str e)))
    else (Raises e, called (asked ext st) (Invoked "get_reviews" [movie_id]) w).
Proof.
  intros Hne Hjson Hf Ht Hi Hr.
  destruct (dict_get d "movie" VNone) as [movie | e'] eqn:Hm.
  2:{ destruct d; simpl in Hf, Hm; discriminate. }
  destruct (is_Exception e) eqn:He.
  - assert (Hesc : escaping (Raise e : result string) = None)
      by (simpl; rewrite He; reflexivity).
    exact (augmentation_run ext st _ _
             (augmentation_fetched ext st d fetch_reviews movie movie_id (Raise e) w
                Hne Hjson Hf Ht Hm Hi Hr Hesc)).
  - assert (Hesc : escaping (Raise e : result string) = Some e)
      by (simpl; rewrite He; reflexivity).
    exact (augmentation_run ext st _ _
             (augmentation_escapes ext st d fetch_reviews movie movie_id (Raise e) e w
                Hne Hjson Hf Ht Hm Hi Hr Hesc)).
Qed.

(** The reviews are asked for while the movie functions are out of reach. *)
Lemma reviews_failure_is_reported_witness :
  add_review_context_if_needed Edge.reviews_offline Scenario.fresh
  = (Returns tt,
     appended (called (asked Edge.reviews_offline Scenario.fresh)
                      (Invoked "get_reviews" [VInt 693134]) tt)
              (msg system ("MOVIE REVIEW CONTEXT:" ++ LF ++ LF
                           ++ "An error occurred while fetching reviews: "
                           ++ "connection refused"))).
Proof.
  exact (reviews_failure_is_reported
           Edge.reviews_offline Scenario.fresh
           (VDict [(VStr "movie", VStr "Dune"); (VStr "id", VInt 693134);
                   (VStr "fetch_reviews", VBool true);
                   (VStr "rationale", VStr "the user asks what critics say")])
           (VBool true) (VInt 693134)
           (Exc (OtherException "ConnectionError") "connection refused") tt
           ltac:(discriminate) eq_refl eq_refl eq_refl eq_refl eq_refl).
Defined.

(** An interruption while the reviews are fetched ends the turn: it leaves
    the augmenter and [on_message], the session holding the user's message
    and no review message, no response generated. *)
Example interrupted_reviews_end_the_turn :
  on_message Edge.reviews_interrupted 3 "Is Dune any good?" Scenario.fresh
  = (Raises (Exc (BaseOnly "KeyboardInterrupt") ""),
     mk_state
       [msg system SYSTEM_PROMPT; msg user "Is Dune any good?"]
       true tt
       [Completion [msg system review_prompt; msg user "Is Dune any good?";
                    msg system review_prompt] false;
        Invoked "get_reviews" [VInt 693134]]).
Proof. vm_compute. reflexivity. Qed.

(** X9: a decision that is a JSON object without the key [fetch_reviews], or
    with a falsy value under it ([false], [0], [null], an empty text, list
    or object), fetches nothing: the augmenter returns, calls no movie
    function and appends nothing; its one event is the decision request. *)
Theorem decision_without_fetch_changes_nothing
        {W : Type} (ext : Externals W) (st : state W) (items : list (pyval * pyval)) :
  message_history st <> [] ->
  json_loads ext (decision ext st) = Ok (VDict items) ->
  match last_item "fetch_reviews" items None with
  | Some v => truthy v = false
  | None => True
  end ->
  add_review_context_if_needed ext st = (Returns tt, asked ext st) /\
  message_history (asked ext st) = message_history st /\
  events_since st (asked ext st)
  = [Completion (review_request (message_history st)) false].
Proof.
  intros Hne Hjson Hfalsy.
  split; [| split; [reflexivity | apply events_since_app; reflexivity]].
  apply augmentation_run.
  apply (augmentation_declined ext st (VDict items)
           (match last_item "fetch_reviews" items None with
            | Some v => v
            | None => VBool false
            end) Hne Hjson eq_refl).
  destruct (last_item "fetch_reviews" items None); [exact Hfalsy | reflexivity].
Qed.

(** The empty object as a decision. *)
Lemma decision_without_fetch_witness :
  add_review_context_if_needed Edge.empty_decision Scenario.fresh
  = (Returns tt, asked Edge.empty_decision Scenario.fresh) /\
  message_history (asked Edge.empty_decision Scenario.fresh)
  = message_history Scenario.fresh /\
  events_since Scenario.fresh (asked Edge.empty_decision Scenario.fresh)
  = [Completion (review_request (message_history Scenario.fresh)) false].
Proof.
  exact (decision_without_fetch_changes_nothing
           Edge.empty_decision Scenario.fresh [] ltac:(discriminate) eq_refl I).
Defined.

(** X10: a decision that is valid JSON and no object (an array, a number, a
    text, [true], [null]) has no [get]: an [AttributeError] leaves the
    augmenter and [on_message] before any response is generated, the
    session holding what it held plus the user's message. *)
Theorem decision_that_is_no_object_raises
        {W : Type} (ext : Externals W) (fuel : nat) (message_content : string)
        (d : pyval) (st : state W) :
  session_set st = true ->
  json_loads ext (decision ext (appended st (msg user message_content))) = Ok d ->
  (forall items, d <> VDict items) ->
  raised_class (fst (on_message ext fuel message_content st)) = Some AttributeError /\
  snd (on_message ext fuel message_content st)
  = asked ext (appended st (msg user message_content)) /\
  message_history (snd (on_message ext fuel message_content st))
  = (message_history st ++ [msg user message_content])%list.
Proof.
  intros Hset Hjson Hd.
  assert (Hget : dict_get d "fetch_reviews" (VBool false)
                 = Raise (Exc AttributeError "object has no attribute 'get'")).
  { destruct d; try reflexivity. exfalso. exact (Hd items eq_refl). }
  assert (Hne : message_history (appended st (msg user message_content)) <> []).
  { simpl. destruct (message_history st); discriminate. }
  assert (Hrun : on_message ext fuel message_content st
                 = (Raises (Exc AttributeError "object has no attribute 'get'"),
                    asked ext (appended st (msg user message_content)))).
  { rewrite on_message_run, first_response_run.
    assert (Hopen : opened st = st) by (unfold opened; rewrite Hset; reflexivity).
    rewrite Hopen.
    rewrite (augmentation_run ext _ _ _
               (augmentation_not_object ext _ d _ Hne Hjson Hget)).
    reflexivity. }
  rewrite Hrun. repeat split.
Qed.

(** An array as a decision. *)
Lemma decision_that_is_no_object_witness :
  raised_class (fst (on_message Edge.array_decision 3 "Hello" Scenario.fresh))
  = Some AttributeError /\
  snd (on_message Edge.array_decision 3 "Hello" Scenario.fresh)
  = asked Edge.array_decision (appended Scenario.fresh (msg user "Hello")) /\
  message_history (snd (on_message Edge.array_decision 3 "Hello" Scenario.fresh))
  = (message_history Scenario.fresh ++ [msg user "Hello"])%list.
Proof.
  apply (decision_that_is_no_object_raises
           Edge.array_decision 3 "Hello" (VList [VInt 1]) Scenario.fresh eq_refl eq_refl).
  intros items H. discriminate H.
Defined.

(** X11: a decision that asks for reviews and has no key [id] makes the
    augmenter call [get_reviews] with [None]: a missing key is not an
    error.  The augmenter then returns, unless [get_reviews] raises an
    exception that [except Exception] does not catch, which leaves it. *)
Theorem missing_id_is_passed_as_none
        {W : Type} (ext : Externals W) (st : state W) (items : list (pyval * pyval))
        (fetch_reviews : pyval) :
  message_history st <> [] ->
  json_loads ext (decision ext st) = Ok (VDict items) ->
  last_item "fetch_reviews" items None = Some fetch_reviews ->
  truthy fetch_reviews = true ->
  last_item "id" items None = None ->
  fst (add_review_context_if_needed ext st)
  = match escaping (fst (get_reviews ext VNone (world (asked ext st)))) with
    | None => Returns tt
    | Some e => Raises e
    end /\
  events_since st (snd (add_review_context_if_needed ext st))
  = [Completion (review_request (message_history st)) false;
     Invoked "get_reviews" [VNone]].
Proof.
  intros Hne Hjson Hfetch Ht Hid.
  destruct (get_reviews ext VNone (world (asked ext st))) as [r w] eqn:Hr.
  assert (Hf : dict_get (VDict items) "fetch_reviews" (VBool false) = Ok fetch_reviews)
    by (simpl; rewrite Hfetch; reflexivity).
  assert (Hi : dict_get (VDict items) "id" VNone = Ok VNone)
    by (simpl; rewrite Hid; reflexivity).
  simpl fst.
  destruct (escaping r) as [e |] eqn:Hesc.
  - rewrite (augmentation_run ext st _ _
               (augmentation_escapes ext st (VDict items) fetch_reviews _ VNone r e w
                  Hne Hjson Hf Ht eq_refl Hi Hr Hesc)).
    split; [reflexivity |].
    apply events_since_app. simpl. rewrite <- app_assoc. reflexivity.
  - rewrite (augmentation_run ext st _ _
               (augmentation_fetched ext st (VDict items) fetch_reviews _ VNone r w
                  Hne Hjson Hf Ht eq_refl Hi Hr Hesc)).
    split; [reflexivity |].
    apply events_since_app. simpl. rewrite <- app_assoc. reflexivity.
Qed.

(** The decision [{"fetch_reviews": true}]. *)
Lemma missing_id_is_passed_as_none_witness :
  fst (add_review_context_if_needed Edge.nameless_decision Scenario.fresh) = Returns tt /\
  events_since Scenario.fresh
    (snd (add_review_context_if_needed Edge.nameless_decision Scenario.fresh))
  = [Completion (review_request (message_history Scenario.fresh)) false;
     Invoked "get_reviews" [VNone]].
Proof.
  exact (missing_id_is_passed_as_none
           Edge.nameless_decision Scenario.fresh [(VStr "fetch_reviews", VBool true)]
           (VBool true) ltac:(discriminate) eq_refl eq_refl eq_refl eq_refl).
Defined.

(** ** A session that was never set up *)

Lemma augmentation_first_event {W : Type} (ext : Externals W) (st st' : state W)
      (o : outcome unit) :
  augmentation ext st o st' ->
  message_history st <> [] ->
  exists evs msgs,
    trace st' = (trace st ++ Completion (review_request (message_history st)) false :: evs)%list
    /\ message_history st' = (message_history st ++ msgs)%list
    /\ session_set st' = session_set st.
Proof.
  intros Ha Hne.
  destruct Ha as [Hh | e _ Hjson | d e _ Hjson Hf | d f _ Hjson Hf Ht
                  | d f movie movie_id r e w _ Hjson Hf Ht Hm Hi Hr Hesc
                  | d f movie movie_id r w _ Hjson Hf Ht Hm Hi Hr Hesc].
  - contradiction.
  - exists [], []. rewrite app_nil_r. repeat split.
  - exists [], []. rewrite app_nil_r. repeat split.
  - exists [], []. rewrite app_nil_r. repeat split.
  - eexists. exists []. rewrite app_nil_r.
    split; [simpl; rewrite <- app_assoc; reflexivity |]. split; reflexivity.
  - eexists. eexists. split; [simpl; rewrite <- app_assoc; reflexivity |].
    split; reflexivity.
Qed.

(** X12: when [on_message] runs on a session that holds no history (no
    [on_chat_start] before it), it starts from an empty list: the decision
    request of the augmenter is the review prompt twice, the user's message
    overwritten at index 0 of the copy, and the history of the turn starts
    with the user's message, not with the system prompt, whatever way the
    turn ends. *)
Theorem unset_session_starts_from_empty_history
        {W : Type} (ext : Externals W) (fuel : nat) (message_content : string)
        (st : state W) :
  session_set st = false ->
  (exists evs,
      events_since st (snd (on_message ext fuel message_content st))
      = Completion [msg system review_prompt; msg system review_prompt] false :: evs) /\
  nth_error (message_history (snd (on_message ext fuel message_content st))) 0
  = Some (msg user message_content).
Proof.
  intros Hunset.
  rewrite on_message_run, first_response_run.
  assert (Hopen : opened st = mk_state [] false (world st) (trace st))
    by (unfold opened; rewrite Hunset; reflexivity).
  rewrite Hopen.
  set (st1 := appended (mk_state [] false (world st) (trace st)) (msg user message_content)).
  pose proof (add_review_context_augmentation ext st1) as Ha.
  destruct (add_review_context_if_needed ext st1) as [oa st2]. simpl in Ha.
  destruct (augmentation_first_event ext st1 st2 oa Ha ltac:(discriminate))
    as [evs [msgs [Ht2 [Hh2 _]]]].
  change (trace st1) with (trace st) in Ht2.
  change (review_request (message_history st1))
    with [msg system review_prompt; msg system review_prompt] in Ht2.
  change (message_history st1) with [msg user message_content] in Hh2.
  destruct oa as [[] | e |]; simpl snd.
  2,3: (split; [exists evs; apply events_since_app; exact Ht2 | rewrite Hh2; reflexivity]).
  destruct (dispatch_loop_effect ext fuel (reply ext st2) (regenerated ext st2))
    as [[addedL HhL] [_ [evsL [HtL _]]]].
  split.
  - eexists. apply events_since_app. rewrite HtL. simpl. rewrite Ht2.
    rewrite <- !app_assoc. simpl. reflexivity.
  - rewrite HhL. simpl. rewrite Hh2. reflexivity.
Qed.

(** A first message on a session that has no history. *)
Lemma unset_session_witness :
  (exists evs,
      events_since Edge.unset (snd (on_message Scenario.plain 3 "Hello" Edge.unset))
      = Completion [msg system review_prompt; msg system review_prompt] false :: evs) /\
  nth_error (message_history (snd (on_message Scenario.plain 3 "Hello" Edge.unset))) 0
  = Some (msg user "Hello").
Proof.
  exact (unset_session_starts_from_empty_history
           Scenario.plain 3 "Hello" Edge.unset eq_refl).
Defined.

(** ** Detection *)

Lemma prefix_iff (needle hay : string) :
  String.prefix needle hay = true <-> exists post, hay = needle ++ post.
Proof.
  revert hay. induction needle as [| c needle IH]; intros hay.
  - split; [intros _; exists hay; reflexivity | intros _; destruct hay; reflexivity].
  - destruct hay as [| h hay]; simpl.
    + split; [discriminate | intros [post H]; discriminate H].
    + destruct (ascii_dec c h) as [-> | Hne].
      * rewrite IH. split; intros [post H]; exists post.
        -- rewrite H. reflexivity.
        -- injection H as H. exact H.
      * split; [discriminate |].
        intros [post H]. injection H as Hc _. congruence.
Qed.

(** X13: detection is by substring.  [contains needle hay] holds exactly
    when [hay] is some text, then [needle], then some text; so a reply that
    holds [get_now_playing_movies()] anywhere, whatever stands before and
    after it, selects the first branch of the loop. *)
Theorem detection_is_by_substring (needle hay : string) :
  (contains needle hay = true <-> exists pre post, hay = pre ++ needle ++ post) /\
  (forall pre post,
      detected (pre ++ "get_now_playing_movies()" ++ post)
      = Some "get_now_playing_movies").
Proof.
  assert (Hiff : forall n h,
             contains n h = true <-> exists pre post, h = pre ++ n ++ post).
  { intros n h. induction h as [| c h IH]; rewrite contains_unfold.
    - destruct (String.prefix n "") eqn:Hp.
      + split; [intros _ | reflexivity].
        apply prefix_iff in Hp. destruct Hp as [post Hp].
        exists "", post. exact Hp.
      + split; [discriminate |].
        intros [pre [post H]]. destruct pre; simpl in H.
        * assert (Hq : String.prefix n "" = true)
            by (apply prefix_iff; exists post; exact H).
          congruence.
        * discriminate H.
    - destruct (String.prefix n (String c h)) eqn:Hp.
      + split; [intros _ | reflexivity].
        apply prefix_iff in Hp. destruct Hp as [post Hp].
        exists "", post. exact Hp.
      + rewrite IH. split.
        * intros [pre [post H]]. exists (String c pre), post. simpl. rewrite H. reflexivity.
        * intros [pre [post H]]. destruct pre as [| c' pre]; simpl in H.
          -- assert (Hq : String.prefix n (String c h) = true)
               by (apply prefix_iff; exists post; exact H).
             congruence.
          -- injection H as _ H. exists pre, post. exact H. }
  split; [apply Hiff |].
  intros pre post. unfold detected.
  assert (Hc : contains "get_now_playing_movies()"
                        (pre ++ "get_now_playing_movies()" ++ post) = true)
    by (apply Hiff; exists pre, post; reflexivity).
  rewrite Hc. reflexivity.
Qed.

(** ** Turns that end *)

(** X14: when the text selects [get_now_playing_movies], the function
    answers, and the response generated next selects no branch, the loop
    ends after one call: the list of movies is appended as a system
    message, the response as an assistant message, and the loop returns
    with any fuel of two or more. *)
Theorem one_call_then_answer
        {W : Type} (ext : Externals W) (fuel : nat) (content text : string)
        (w : W) (st : state W) :
  detected content = Some "get_now_playing_movies" ->
  get_now_playing_movies ext (world st) = (Ok text, w) ->
  detected (reply ext (appended (called st (Invoked "get_now_playing_movies" []) w)
                                (msg system ("Current movies:" ++ LF ++ LF ++ " " ++ text))))
  = None ->
  let st1 := appended (called st (Invoked "get_now_playing_movies" []) w)
                      (msg system ("Current movies:" ++ LF ++ LF ++ " " ++ text)) in
  dispatch_loop ext (S (S fuel)) content st = (Returns tt, regenerated ext st1) /\
  message_history (regenerated ext st1)
  = (message_history st
       ++ [msg system ("Current movies:" ++ LF ++ LF ++ " " ++ text);
           msg assistant (reply ext st1)])%list /\
  calls_since st (regenerated ext st1) = 1.
Proof.
  intros Hd Hcall Hnone st1.
  split; [| split].
  - rewrite dispatch_loop_step.
    rewrite (cycle_dispatch_cycle ext content st _ _
               (cycle_now_playing ext content st text w Hd Hcall)).
    exact (dispatch_loop_breaks ext fuel _ _ Hnone).
  - simpl. rewrite <- app_assoc. reflexivity.
  - unfold calls_since.
    rewrite (events_since_app st _
               [Invoked "get_now_playing_movies" [];
                Completion (message_history st1) true; Sent (reply ext st1)]).
    + reflexivity.
    + simpl. rewrite <- app_assoc. reflexivity.
Qed.

(** The model asks once and then answers in prose. *)
Lemma one_call_then_answer_witness :
  let st := appended Scenario.fresh (msg assistant Scenario.now_playing_text) in
  let st1 := appended (called st (Invoked "get_now_playing_movies" []) tt)
                      (msg system ("Current movies:" ++ LF ++ LF ++ " " ++ "Dune, Wicked")) in
  dispatch_loop Edge.one_call 2 Scenario.now_playing_text st
  = (Returns tt, regenerated Edge.one_call st1) /\
  message_history (regenerated Edge.one_call st1)
  = (message_history st
       ++ [msg system ("Current movies:" ++ LF ++ LF ++ " " ++ "Dune, Wicked");
           msg assistant (reply Edge.one_call st1)])%list /\
  calls_since st (regenerated Edge.one_call st1) = 1.
Proof.
  exact (one_call_then_answer
           Edge.one_call 0 Scenario.now_playing_text "Dune, Wicked" tt
           (appended Scenario.fresh (msg assistant Scenario.now_playing_text))
           eq_refl eq_refl eq_refl).
Defined.

(** ** What the model is sent *)

Lemma cycle_requests {W : Type} (ext : Externals W) (content : string) (st st' : state W)
      (o : outcome (option string)) :
  cycle ext content st o st' ->
  (exists added, message_history st' = (message_history st ++ added)%list) /\
  (exists evs,
      trace st' = (trace st ++ evs)%list /\
      forall msgs stream,
        In (Completion msgs stream) evs ->
        stream = true /\ exists later, msgs = (message_history st ++ later)%list).
Proof.
  intros Hc.
  destruct Hc as
      [text w Hd Hcall | e w Hd Hcall | e Hd Hp | args' e Hd Hp Hshape
       | movie location e Hd Hp Hprint
       | movie location r e w Hd Hp Hprint Hcall Hesc
       | movie location r w Hd Hp Hprint Hcall Hesc | Hd | e Hd Hp
       | args' e Hd Hp Hshape
       | theater movie showtime e Hd Hp Hprint
       | theater movie showtime r e w Hd Hp Hprint Hcall Hesc
       | theater movie showtime r w Hd Hp Hprint Hcall Hesc | Hd].
  all: try (split; [exists []; rewrite app_nil_r; reflexivity |];
            exists []; rewrite app_nil_r; split; [reflexivity |];
            intros msgs stream []).
  all: try (split; [eexists; simpl; rewrite <- app_assoc; reflexivity |];
            eexists; split; [simpl; rewrite <- app_assoc; reflexivity |];
            intros msgs stream [H | [H | [H | []]]]; try discriminate H;
            injection H as <- <-; split; [reflexivity | eexists; reflexivity]).
  all: try (split; [exists []; rewrite app_nil_r; reflexivity |];
            eexists; split; [reflexivity |];
            intros msgs stream [H | []]; discriminate H).
  split; [eexists; simpl; rewrite <- app_assoc; reflexivity |].
  eexists. split; [reflexivity |].
  intros msgs stream [H | [H | []]]; try discriminate H.
  injection H as <- <-. split; [reflexivity | eexists; reflexivity].
Qed.

Lemma dispatch_loop_requests (fuel : nat) {W : Type} (ext : Externals W) :
  forall (content : string) (st : state W),
  exists evs,
    trace (snd (dispatch_loop ext fuel content st)) = (trace st ++ evs)%list /\
    forall msgs stream,
      In (Completion msgs stream) evs ->
      stream = true /\ exists later, msgs = (message_history st ++ later)%list.
Proof.
  induction fuel as [| fuel IH]; intros content st.
  - exists []. simpl. rewrite app_nil_r. split; [reflexivity | intros msgs stream []].
  - rewrite dispatch_loop_step.
    pose proof (dispatch_cycle_cycle ext content st) as Hc.
    destruct (dispatch_cycle ext content st) as [o st1]. simpl in Hc.
    destruct (cycle_requests ext content st st1 o Hc) as [[added Hh1] [evs1 [Ht1 Hr1]]].
    destruct o as [[next |] | e |]; simpl; try (exists evs1; split; assumption).
    destruct (IH next st1) as [evs2 [Ht2 Hr2]].
    exists (evs1 ++ evs2)%list. split; [rewrite Ht2, Ht1, app_assoc; reflexivity |].
    intros msgs stream Hin. apply in_app_or in Hin. destruct Hin as [Hin | Hin].
    + exact (Hr1 msgs stream Hin).
    + destruct (Hr2 msgs stream Hin) as [Hs [later Hl]].
      split; [exact Hs |]. exists (added ++ later)%list.
      rewrite Hl, Hh1, app_assoc. reflexivity.
Qed.

(** X16: in a turn on a stored session, every streamed request to the model
    carries the whole history of the session as it was, then the user's
    message, then what the turn has appended since; the one request that
    does not is the decision request of the augmenter, which is not
    streamed and carries the review prompt in place of the first message
    and once more at the end. *)
Theorem streamed_requests_carry_the_session
        {W : Type} (ext : Externals W) (fuel : nat) (message_content : string)
        (st : state W) :
  session_set st = true ->
  forall msgs stream,
    In (Completion msgs stream)
       (events_since st (snd (on_message ext fuel message_content st))) ->
    (stream = false /\
     msgs = (msg system review_prompt
               :: tl (message_history st ++ [msg user message_content])
               ++ [msg system review_prompt])%list) \/
    (stream = true /\
     exists later,
       msgs = (message_history st ++ msg user message_content :: later)%list).
Proof.
  intros Hset msgs stream.
  rewrite on_message_run, first_response_run.
  assert (Hopen : opened st = st) by (unfold opened; rewrite Hset; reflexivity).
  rewrite Hopen.
  pose proof (add_review_context_augmentation ext
                (appended st (msg user message_content))) as Ha.
  destruct (add_review_context_if_needed ext (appended st (msg user message_content)))
    as [oa st2].
  simpl in Ha.
  destruct (augmentation_effect ext _ _ _ Ha) as [_ [Hh2 [evsA [Ht2 [HcompA _]]]]].
  simpl in Ht2, HcompA, Hh2.
  assert (HA : forall msgs stream,
             In (Completion msgs stream) evsA ->
             (stream = false /\
              msgs = (msg system review_prompt
                        :: tl (message_history st ++ [msg user message_content])
                        ++ [msg system review_prompt])%list) \/
             (stream = true /\
              exists later,
                msgs = (message_history st ++ msg user message_content :: later)%list)).
  { intros m s Hin. left. destruct (HcompA m s Hin) as [-> ->]. split; reflexivity. }
  assert (Hhist2 : exists later,
             message_history st2
             = (message_history st ++ msg user message_content :: later)%list).
  { destruct Hh2 as [Hh2 | [reviews [_ Hh2]]]; rewrite Hh2.
    - exists []. reflexivity.
    - eexists. rewrite <- app_assoc. reflexivity. }
  destruct oa as [[] | e |]; simpl snd.
  2,3: (rewrite (events_since_app st st2 evsA Ht2); apply HA).
  destruct (dispatch_loop_requests fuel ext (reply ext st2) (regenerated ext st2))
    as [evsL [HtL HrL]].
  rewrite (events_since_app st _
             (evsA ++ [Completion (message_history st2) true; Sent (reply ext st2)] ++ evsL)).
  2:{ rewrite HtL. simpl. rewrite Ht2, <- !app_assoc. reflexivity. }
  intros Hin. apply in_app_or in Hin. destruct Hin as [Hin | Hin]; [exact (HA _ _ Hin) |].
  right. destruct Hhist2 as [later2 Hl2].
  destruct Hin as [H | [H | Hin]]; try discriminate H.
  - injection H as <- <-. split; [reflexivity |]. exists later2. exact Hl2.
  - destruct (HrL msgs stream Hin) as [Hs [later Hl]].
    split; [exact Hs |].
    exists (later2 ++ msg assistant (reply ext st2) :: later)%list.
    rewrite Hl. simpl. rewrite Hl2, <- !app_assoc. reflexivity.
Qed.

(** The requests of the turn in which reviews are fetched. *)
Lemma streamed_requests_carry_the_session_witness :
  session_set Scenario.fresh = true /\
  forall msgs stream,
    In (Completion msgs stream)
       (events_since Scenario.fresh
          (snd (on_message Scenario.reviewing 3 "Is Dune any good?" Scenario.fresh))) ->
    (stream = false /\
     msgs = (msg system review_prompt
               :: tl (message_history Scenario.fresh ++ [msg user "Is Dune any good?"])
               ++ [msg system review_prompt])%list) \/
    (stream = true /\
     exists later,
       msgs = (message_history Scenario.fresh ++ msg user "Is Dune any good?" :: later)%list).
Proof.
  split; [reflexivity |].
  exact (streamed_requests_carry_the_session
           Scenario.reviewing 3 "Is Dune any good?" Scenario.fresh eq_refl).
Defined.

(** ** What is kept of a turn *)

(** X17: a turn on a session that holds no history stores the session
    exactly when the augmenter returns: from the first response on, the
    history is kept whatever happens next; when the augmenter raises, the
    session still holds nothing, and the user's message is lost. *)
Theorem unset_session_is_stored_after_augmenter
        {W : Type} (ext : Externals W) (fuel : nat) (message_content : string)
        (st : state W) :
  session_set st = false ->
  session_set (snd (on_message ext fuel message_content st))
  = match fst (add_review_context_if_needed
                 ext (appended (opened st) (msg user message_content))) with
    | Returns _ => true
    | _ => false
    end.
Proof.
  intros Hunset.
  rewrite on_message_run, first_response_run.
  pose proof (add_review_context_augmentation ext
                (appended (opened st) (msg user message_content))) as Ha.
  destruct (add_review_context_if_needed ext
              (appended (opened st) (msg user message_content))) as [oa st2].
  simpl in Ha |- *.
  destruct (augmentation_effect ext _ _ _ Ha) as [Hs2 _].
  assert (Hs : session_set st2 = false).
  { rewrite Hs2. unfold opened. rewrite Hunset. reflexivity. }
  destruct oa as [[] | e |]; try exact Hs.
  destruct (dispatch_loop_effect ext fuel (reply ext st2) (regenerated ext st2))
    as [_ [Hkeep _]].
  exact (Hkeep eq_refl).
Qed.

(** A decision in prose on a session that holds no history: nothing is
    stored. *)
Lemma unset_session_is_stored_witness :
  session_set (snd (on_message Scenario.undecided 3 "Is Dune any good?" Edge.unset))
  = match fst (add_review_context_if_needed
                 Scenario.undecided
                 (appended (opened Edge.unset) (msg user "Is Dune any good?"))) with
    | Returns _ => true
    | _ => false
    end.
Proof.
  exact (unset_session_is_stored_after_augmenter
           Scenario.undecided 3 "Is Dune any good?" Edge.unset eq_refl).
Defined.

(** X18: once the argument step of the [get_showtimes] or [buy_ticket]
    branch has succeeded and the line of the branch is written, that time
    round the loop raises only what [except Exception] does not catch.
    When the movie function answers, or raises an exception of class
    [Exception], a system message is appended, the next response is
    generated, and the loop goes round again; any other exception
    ([KeyboardInterrupt], [SystemExit]) leaves the loop right after the
    call, nothing appended. *)
Theorem extracted_call_always_goes_round_again
        {W : Type} (ext : Externals W) (content name : string) (values : list pyval)
        (st : state W) (r : result string) (w : W) :
  detected content = Some name ->
  name = "get_showtimes" \/ name = "buy_ticket" ->
  extract_arguments ext name content = Ok values ->
  printing ext name values = Ok tt ->
  invoke ext name values (world st) = Some (r, w) ->
  match escaping r with
  | None =>
      exists text next,
        fst (dispatch_cycle ext content st) = Returns (Some next) /\
        message_history (snd (dispatch_cycle ext content st))
        = (message_history st ++ [msg system text; msg assistant next])%list /\
        events_since st (snd (dispatch_cycle ext content st))
        = [Invoked name values;
           Completion (message_history st ++ [msg system text])%list true;
           Sent next]
  | Some e =>
      dispatch_cycle ext content st = (Raises e, called st (Invoked name values) w)
  end.
Proof.
  intros Hd Hname Hargs Hwritten Hcall.
  unfold extract_arguments in Hargs.
  destruct (parse_function_call_args ext content) as [args | e] eqn:Hparse;
    [| discriminate Hargs].
  destruct Hname as [-> | ->]; simpl in Hargs.
  - destruct (unpack2 args) as [[movie location] | e] eqn:Hshape; [| discriminate Hargs].
    injection Hargs as <-.
    assert (args = [movie; location]) as ->.
    { destruct args as [| a [| b [| c l]]]; simpl in Hshape; try discriminate.
      injection Hshape as -> ->. reflexivity. }
    unfold printing in Hwritten. simpl in Hwritten, Hcall. injection Hcall as Hcall.
    destruct (escaping r) as [e |] eqn:Hesc.
    + exact (cycle_dispatch_cycle ext content st _ _
               (cycle_showtimes_escapes ext content st movie location r e w
                                        Hd Hparse Hwritten Hcall Hesc)).
    + rewrite (cycle_dispatch_cycle ext content st _ _
                 (cycle_showtimes ext content st movie location r w
                                  Hd Hparse Hwritten Hcall Hesc)).
      eexists. eexists. split; [reflexivity |]. split.
      * simpl. rewrite <- app_assoc. reflexivity.
      * apply events_since_app. simpl. rewrite <- app_assoc. reflexivity.
  - destruct (unpack3 args) as [[[theater movie] showtime] | e] eqn:Hshape;
      [| discriminate Hargs].
    injection Hargs as <-.
    assert (args = [theater; movie; showtime]) as ->.
    { destruct args as [| a [| b [| c [| d l]]]]; simpl in Hshape; try discriminate.
      injection Hshape as -> -> ->. reflexivity. }
    unfold printing in Hwritten. simpl in Hwritten, Hcall. injection Hcall as Hcall.
    destruct (escaping r) as [e |] eqn:Hesc.
    + exact (cycle_dispatch_cycle ext content st _ _
               (cycle_buy_escapes ext content st theater movie showtime r e w
                                  Hd Hparse Hwritten Hcall Hesc)).
    + rewrite (cycle_dispatch_cycle ext content st _ _
                 (cycle_buy ext content st theater movie showtime r w
                            Hd Hparse Hwritten Hcall Hesc)).
      eexists. eexists. split; [reflexivity |]. split.
      * simpl. rewrite <- app_assoc. reflexivity.
      * apply events_since_app. simpl. rewrite <- app_assoc. reflexivity.
Qed.

(** The purchase goes round again though [buy_ticket] is out of reach. *)
Lemma extracted_call_goes_round_again_witness :
  exists text next,
    fst (dispatch_cycle (Scenario.failing (Scenario.repeating "" Scenario.no_reviews))
                        Scenario.buy_text Scenario.fresh)
    = Returns (Some next) /\
    message_history
      (snd (dispatch_cycle (Scenario.failing (Scenario.repeating "" Scenario.no_reviews))
                           Scenario.buy_text Scenario.fresh))
    = (message_history Scenario.fresh ++ [msg system text; msg assistant next])%list /\
    events_since Scenario.fresh
      (snd (dispatch_cycle (Scenario.failing (Scenario.repeating "" Scenario.no_reviews))
                           Scenario.buy_text Scenario.fresh))
    = [Invoked "buy_ticket" [VStr "A"; VStr "B"; VStr "7pm"];
       Completion (message_history Scenario.fresh ++ [msg system text])%list true;
       Sent next].
Proof.
  exact (extracted_call_always_goes_round_again
           (Scenario.failing (Scenario.repeating "" Scenario.no_reviews))
           Scenario.buy_text "buy_ticket" [VStr "A"; VStr "B"; VStr "7pm"]
           Scenario.fresh
           (Raise (Exc (OtherException "ConnectionError") "connection refused")) tt
           eq_refl (or_intror eq_refl) eq_refl eq_refl eq_refl).
Defined.

(** The same purchase, interrupted from the keyboard while [buy_ticket]
    runs: the interruption leaves the loop, no message tells of it. *)
Example interrupted_purchase_leaves_the_loop :
  dispatch_cycle (Edge.interrupted (Scenario.repeating "" Scenario.no_reviews))
                 Scenario.buy_text Scenario.fresh
  = (Raises (Exc (BaseOnly "KeyboardInterrupt") ""),
     called Scenario.fresh (Invoked "buy_ticket" [VStr "A"; VStr "B"; VStr "7pm"]) tt).
Proof. vm_compute. reflexivity. Qed.

(** A call whose first argument is an integer too long to be printed: the
    values are extracted, the line before the call raises, and
    [get_showtimes] is not called. *)
Example unprintable_value_is_not_passed_on :
  (exists z, parse_function_call_args Scenario.plain Edge.huge_number_text
             = Ok [VInt z; VStr "Paris"]) /\
  raised_class (fst (dispatch_cycle Scenario.plain Edge.huge_number_text Scenario.fresh))
  = Some ValueError /\
  snd (dispatch_cycle Scenario.plain Edge.huge_number_text Scenario.fresh) = Scenario.fresh.
Proof.
  split; [eexists; vm_compute; reflexivity |]. vm_compute. split; reflexivity.
Qed.

(** A call with its arguments given by keyword, as the signature in the
    prompt allows: no positional value is extracted, the unpacking raises,
    and [get_showtimes] is not called. *)
Example keyword_call_is_not_unpacked :
  parse_function_call_args Scenario.plain Edge.keyword_call_text = Ok [] /\
  raised_class (fst (dispatch_cycle Scenario.plain Edge.keyword_call_text Scenario.fresh))
  = Some ValueError /\
  snd (dispatch_cycle Scenario.plain Edge.keyword_call_text Scenario.fresh) = Scenario.fresh.
Proof. vm_compute. repeat split. Qed.

Lemma user_texts_app (a b : list Message) :
  user_texts (a ++ b) = (user_texts a ++ user_texts b)%list.
Proof. unfold user_texts. rewrite filter_app, map_app. reflexivity. Qed.

Lemma cycle_users {W : Type} (ext : Externals W) (content : string) (st st' : state W)
      (o : outcome (option string)) :
  cycle ext content st o st' ->
  user_texts (message_history st') = user_texts (message_history st).
Proof.
  intros Hc. destruct Hc; try reflexivity;
    simpl message_history; rewrite !user_texts_app; simpl; rewrite !app_nil_r; reflexivity.
Qed.

Lemma dispatch_loop_users (fuel : nat) {W : Type} (ext : Externals W) :
  forall (content : string) (st : state W),
    user_texts (message_history (snd (dispatch_loop ext fuel content st)))
    = user_texts (message_history st).
Proof.
  induction fuel as [| fuel IH]; intros content st; [reflexivity |].
  rewrite dispatch_loop_step.
  pose proof (dispatch_cycle_cycle ext content st) as Hc.
  destruct (dispatch_cycle ext content st) as [o st1]. simpl in Hc.
  pose proof (cycle_users ext content st st1 o Hc) as Hu.
  destruct o as [[next |] | e |]; simpl; try exact Hu.
  rewrite IH. exact Hu.
Qed.

(** X19: the only user message a turn adds to the session is the one it was
    given: whatever the model and the movie functions return, and whatever
    way the turn ends, the user messages of the session are those it had,
    followed by that message; tool results and acknowledgments are system
    messages. *)
Theorem turn_adds_one_user_message
        {W : Type} (ext : Externals W) (fuel : nat) (message_content : string)
        (st : state W) :
  user_texts (message_history (snd (on_message ext fuel message_content st)))
  = (user_texts (message_history (opened st)) ++ [message_content])%list.
Proof.
  rewrite on_message_run, first_response_run.
  pose proof (add_review_context_augmentation ext
                (appended (opened st) (msg user message_content))) as Ha.
  destruct (add_review_context_if_needed ext
              (appended (opened st) (msg user message_content))) as [oa st2].
  simpl in Ha.
  destruct (augmentation_effect ext _ _ _ Ha) as [_ [Hh2 _]].
  assert (Hu2 : user_texts (message_history st2)
                = (user_texts (message_history (opened st)) ++ [message_content])%list).
  { destruct Hh2 as [Hh2 | [reviews [_ Hh2]]]; rewrite Hh2; simpl message_history;
      rewrite !user_texts_app; simpl; rewrite ?app_nil_r; reflexivity. }
  destruct oa as [[] | e |]; simpl snd; try exact Hu2.
  rewrite dispatch_loop_users. simpl message_history.
  rewrite user_texts_app. simpl. rewrite app_nil_r. exact Hu2.
Qed.
